(** * keepa_gb_sellers_in_de.py: country inference and the batched
      query / filter pipeline, as a shallow embedding.

    Modelling conventions.
    - A Python [str] is a [list ascii]: the embedding covers text whose code
      points are below 128.  Characters from 128 on are carried along as
      caseless symbols that are neither whitespace nor word characters.
    - A JSON value returned by the provider is a [value]; a float is carried
      by its [repr] text, from which the two things the script can do with
      it ([str] and the truth value) are read.
    - The provider client and the input file are parameters of [main].  A
      failure of the client is an exception under [Exception], the kind
      [except Exception] catches; building the client and opening the
      output file are taken to succeed.
    - [print], [time.sleep], the queries and the CSV writer append to an
      event log, which stands for what the run does to the world. *)

From Stdlib Require Import List Ascii ZArith NArith Bool Arith Lia.
From Stdlib Require String DecimalString.
Import ListNotations.

#[warnings="-via-type-mismatch"]
String Notation list String.string_of_list_byte String.list_byte_of_string
  (via String.string mapping [[nil] => String.EmptyString, [cons] => String.String])
  : list_scope.

Local Open Scope list_scope.
Local Open Scope bool_scope.

(** ** Python strings *)

Definition str := list ascii.

Definition ord (c : ascii) : N := N_of_ascii c.

Definition in_range (lo hi c : ascii) : bool :=
  (ord lo <=? ord c)%N && (ord c <=? ord hi)%N.

(** [str.isspace] on one character, which is also the regex class [\s]:
    TAB..CR, FS..US and the blank. *)
Definition isspace (c : ascii) : bool :=
  ((9 <=? ord c)%N && (ord c <=? 13)%N) || ((28 <=? ord c)%N && (ord c <=? 32)%N).

(** The regex set [[A-Za-z]]. *)
Definition isalpha (c : ascii) : bool :=
  in_range "A" "Z" c || in_range "a" "z" c.

(** The regex class [\w]: letters, digits and the underscore. *)
Definition isword (c : ascii) : bool :=
  isalpha c || in_range "0" "9" c || Ascii.eqb c "_".

Definition upper_char (c : ascii) : ascii :=
  if in_range "a" "z" c then ascii_of_N (ord c - 32) else c.

Definition lower_char (c : ascii) : ascii :=
  if in_range "A" "Z" c then ascii_of_N (ord c + 32) else c.

(** [s.upper()] *)
Definition upper (s : str) : str := map upper_char s.

Fixpoint lstrip (s : str) : str :=
  match s with
  | c :: s' => if isspace c then lstrip s' else s
  | [] => []
  end.

Definition rstrip (s : str) : str := rev (lstrip (rev s)).

(** [s.strip()] *)
Definition strip (s : str) : str := rstrip (lstrip s).

(** Truth value of a string: it is not empty. *)
Definition nonempty (s : str) : bool :=
  match s with [] => false | _ :: _ => true end.

Definition str_eqb (a b : str) : bool :=
  if list_eq_dec ascii_dec a b then true else false.

(** [s.split(sep)] for a one-character separator: never an empty list. *)
Fixpoint split (sep : ascii) (s : str) : list str :=
  match s with
  | [] => [[]]
  | c :: s' =>
      if Ascii.eqb c sep then [] :: split sep s'
      else match split sep s' with
           | seg :: segs => (c :: seg) :: segs
           | [] => [[c]]
           end
  end.

(** [l[-1]] of a list of strings known to be non-empty. *)
Definition last_item (l : list str) : str := last l [].

(** [str(n)] of an integer. *)
Definition str_of_Z (z : Z) : str :=
  String.list_ascii_of_string (DecimalString.NilZero.string_of_int (Z.to_int z)).

(** ** The fragment of [re] the script uses

    Only the truth value of [re.fullmatch] and [re.search] is looked at, so a
    pattern is embedded by the set of matches it admits; the matcher below
    tries every alternative and every repetition count. *)
Module Re.

Inductive cls : Type :=
| Range (lo hi : ascii)        (* a-z *)
| Space                        (* \s *)
| Union (a b : cls).

Inductive regex : Type :=
| Eps
| Lit (c : ascii)              (* an ordinary character *)
| Set_ (p : cls)               (* [...] or a class escape *)
| WordB                        (* \b *)
| Cat (a b : regex)
| Alt (a b : regex)            (* a|b *)
| Star (a : regex).            (* a* *)

(** [a+] and [a{2}] *)
Definition Plus (a : regex) : regex := Cat a (Star a).
Definition Twice (a : regex) : regex := Cat a a.

(** A literal word, character by character. *)
Fixpoint Word (w : str) : regex :=
  match w with
  | [] => Eps
  | c :: w' => Cat (Lit c) (Word w')
  end.

Fixpoint in_cls (p : cls) (c : ascii) : bool :=
  match p with
  | Range lo hi => in_range lo hi c
  | Space => isspace c
  | Union a b => in_cls a c || in_cls b c
  end.

(** One character against a literal or a set; [ic] is [re.IGNORECASE]. *)
Definition lit_match (ic : bool) (l c : ascii) : bool :=
  if ic then Ascii.eqb (lower_char l) (lower_char c) else Ascii.eqb l c.

Definition cls_match (ic : bool) (p : cls) (c : ascii) : bool :=
  in_cls p c || (ic && (in_cls p (lower_char c) || in_cls p (upper_char c))).

Definition opt_word (o : option ascii) : bool :=
  match o with Some c => isword c | None => false end.

(** [\b]: exactly one of the two neighbours is a word character. *)
Definition at_boundary (prev : option ascii) (s : str) : bool :=
  xorb (opt_word prev) (opt_word (hd_error s)).

(** The loop of a repetition: stop here, or match the body once more and go
    on; an iteration that consumed nothing is given up, as [re] does.  The
    length of the subject bounds the number of iterations. *)
Fixpoint star_loop (body : option ascii -> str -> (option ascii -> str -> bool) -> bool)
    (k : option ascii -> str -> bool) (fuel : nat) (prev : option ascii) (s : str)
    {struct fuel} : bool :=
  k prev s ||
  match fuel with
  | O => false
  | S fuel' =>
      body prev s (fun p' s' => (length s' <? length s) && star_loop body k fuel' p' s')
  end.

(** [matches r ic prev s k]: some match of [r] at the head of [s], the
    character before it being [prev], leaves a rest that [k] accepts. *)
Fixpoint matches (r : regex) (ic : bool) (prev : option ascii) (s : str)
    (k : option ascii -> str -> bool) {struct r} : bool :=
  match r with
  | Eps => k prev s
  | Lit l =>
      match s with
      | c :: s' => lit_match ic l c && k (Some c) s'
      | [] => false
      end
  | Set_ p =>
      match s with
      | c :: s' => cls_match ic p c && k (Some c) s'
      | [] => false
      end
  | WordB => at_boundary prev s && k prev s
  | Cat a b => matches a ic prev s (fun p' s' => matches b ic p' s' k)
  | Alt a b => matches a ic prev s k || matches b ic prev s k
  | Star a => star_loop (matches a ic) k (length s) prev s
  end.

(** [re.fullmatch(r, s)] as a truth value. *)
Definition fullmatch (r : regex) (ic : bool) (s : str) : bool :=
  matches r ic None s (fun _ rest => negb (nonempty rest)).

(** [re.search(r, s)] as a truth value: a match starting at any position. *)
Fixpoint search_from (r : regex) (ic : bool) (prev : option ascii) (s : str) : bool :=
  matches r ic prev s (fun _ _ => true) ||
  match s with
  | c :: s' => search_from r ic (Some c) s'
  | [] => false
  end.

Definition search (r : regex) (ic : bool) (s : str) : bool :=
  search_from r ic None s.

End Re.

(** The three patterns of [extract_country_from_seller]. *)

(** [[A-Za-z]{2}] *)
Definition re_two_letters : Re.regex :=
  Re.Twice (Re.Set_ (Re.Union (Re.Range "A" "Z") (Re.Range "a" "z"))).

(** [\s*[A-Za-z]{2}\s*] *)
Definition re_padded_two_letters : Re.regex :=
  Re.Cat (Re.Star (Re.Set_ Re.Space))
    (Re.Cat re_two_letters (Re.Star (Re.Set_ Re.Space))).

(** [(United\s+Kingdom|Great\s+Britain|\bUK\b|\bGB\b)] *)
Definition re_uk : Re.regex :=
  Re.Alt (Re.Cat (Re.Word "United") (Re.Cat (Re.Plus (Re.Set_ Re.Space)) (Re.Word "Kingdom")))
    (Re.Alt (Re.Cat (Re.Word "Great") (Re.Cat (Re.Plus (Re.Set_ Re.Space)) (Re.Word "Britain")))
       (Re.Alt (Re.Cat Re.WordB (Re.Cat (Re.Word "UK") Re.WordB))
               (Re.Cat Re.WordB (Re.Cat (Re.Word "GB") Re.WordB)))).


(** ** JSON values as the provider client returns them *)

#[warnings="-register-all"]
Inductive value : Type :=
| VNone
| VBool (b : bool)
| VInt (z : Z)
| VFloat (text : str)          (* a float, by its repr *)
| VStr (s : str)
| VList (l : list value)
| VDict (d : list (str * value)).

(** A dict keeps its items in insertion order; a key occurs once. *)
Definition dict := list (str * value).

Fixpoint lookup (k : str) (d : dict) : option value :=
  match d with
  | [] => None
  | (k', v) :: d' => if str_eqb k k' then Some v else lookup k d'
  end.

(** [d.get(k)]: the value, or [None] when the key is absent. *)
Definition dict_get (d : dict) (k : str) : value :=
  match lookup k d with Some v => v | None => VNone end.

Definition DQUOTE : ascii := "034".

Definition hex_digit (n : N) : ascii :=
  nth (N.to_nat n) "0123456789abcdef" "0"%char.

Definition repr_char (quote c : ascii) : str :=
  if Ascii.eqb c quote || Ascii.eqb c "\" then ["\"%char; c]
  else if Ascii.eqb c "009" then "\t"
  else if Ascii.eqb c "010" then "\n"
  else if Ascii.eqb c "013" then "\r"
  else if (ord c <? 32)%N || (ord c =? 127)%N
       then "\x" ++ [hex_digit (ord c / 16); hex_digit (ord c mod 16)]
  else [c].

Definition has_char (c : ascii) (s : str) : bool := existsb (Ascii.eqb c) s.

(** [repr(s)] of a string: single quotes unless that would need escapes
    which double quotes avoid. *)
Definition repr_str (s : str) : str :=
  let quote := if has_char "'" s && negb (has_char DQUOTE s) then DQUOTE else "'"%char in
  quote :: flat_map (repr_char quote) s ++ [quote].

(** [sep.join(parts)] *)
Fixpoint join (sep : str) (parts : list str) : str :=
  match parts with
  | [] => []
  | [p] => p
  | p :: ps => p ++ sep ++ join sep ps
  end.

Fixpoint repr (v : value) : str :=
  match v with
  | VNone => "None"
  | VBool true => "True"
  | VBool false => "False"
  | VInt z => str_of_Z z
  | VFloat text => text
  | VStr s => repr_str s
  | VList l => "[" ++ join ", " (map repr l) ++ "]"
  | VDict d =>
      "{" ++ join ", " (map (fun kv => match kv with
                                       | (k, x) => repr_str k ++ ": " ++ repr x
                                       end) d) ++ "}"
  end.

(** [str(v)] *)
Definition py_str (v : value) : str :=
  match v with
  | VStr s => s
  | _ => repr v
  end.

(** The truth value of [v], as [or], [and] and [if] take it. *)
Definition truthy (v : value) : bool :=
  match v with
  | VNone => false
  | VBool b => b
  | VInt z => negb (z =? 0)%Z
  | VFloat text => negb (str_eqb text "0.0" || str_eqb text "-0.0")
  | VStr s => nonempty s
  | VList l => match l with [] => false | _ => true end
  | VDict d => match d with [] => false | _ => true end
  end.

(** [a or b] *)
Definition py_or (a b : value) : value := if truthy a then a else b.

(** [type(v).__name__] *)
Definition type_name (v : value) : str :=
  match v with
  | VNone => "NoneType"
  | VBool _ => "bool"
  | VInt _ => "int"
  | VFloat _ => "float"
  | VStr _ => "str"
  | VList _ => "list"
  | VDict _ => "dict"
  end.

(** ** Country inference *)

(** A [for] loop whose body may [return]: the first value returned. *)
Fixpoint for_return {K R : Type} (ks : list K) (body : K -> option R) : option R :=
  match ks with
  | [] => None
  | k :: ks' =>
      match body k with
      | Some r => Some r
      | None => for_return ks' body
      end
  end.

Definition direct_keys : list str := ["establishedCountry"; "countryCode"; "country"].

Definition candidate_keys : list str :=
  ["businessAddress"; "registrationAddress"; "address";
   "storefrontAddress"; "sellerAddress"].

Definition extra_keys : list str := ["country"; "countryCode"; "establishedCountry"].

(** The body of the two loops over explicit fields:
    [if isinstance(v, str) and v.strip(): return v.strip().upper()] *)
Definition explicit_field (v : value) : option str :=
  match v with
  | VStr s => if nonempty (strip s) then Some (upper (strip s)) else None
  | _ => None
  end.

(** The body of the loop over [candidate_keys]. *)
Definition address_field (v : value) : option str :=
  match v with
  | VList (x :: l) =>
      let last := strip (py_str (last (x :: l) VNone)) in
      if Re.fullmatch re_two_letters false last then Some (upper last)
      else if Re.search re_uk true last then Some "GB"
      else None
  | VStr s =>
      if nonempty (strip s) then
        let tail := last_item (split "," (strip s)) in
        if Re.fullmatch re_padded_two_letters false tail then Some (upper (strip tail))
        else if Re.search re_uk true s then Some "GB"
        else None
      else None
  | _ => None
  end.

(** The loop over explicit fields, on the record and later on its extra
    mapping, and the loop over address fields. *)
Definition explicit_loop (keys : list str) (d : dict) : option str :=
  for_return keys (fun k => explicit_field (dict_get d k)).

Definition address_loop (d : dict) : option str :=
  for_return candidate_keys (fun k => address_field (dict_get d k)).

Definition extract_country_from_seller (seller_obj : dict) : option str :=
  match explicit_loop direct_keys seller_obj with
  | Some c => Some c
  | None =>
      match address_loop seller_obj with
      | Some c => Some c
      | None =>
          match dict_get seller_obj "extra" with
          | VDict extra => explicit_loop extra_keys extra
          | _ => None
          end
      end
  end.

(** ** URL builders *)

Definition amazon_seller_url (seller_id domain : str) : str :=
  let tld := match lookup domain [("DE", VStr "de"); ("GB", VStr "co.uk"); ("US", VStr "com")] with
             | Some (VStr t) => t
             | _ => "de"
             end in
  "https://www.amazon." ++ tld ++ "/sp?seller=" ++ seller_id.

Definition keepa_seller_url (seller_id domain : str) : str :=
  "https://keepa.com/#!seller/" ++ domain ++ "/" ++ seller_id.

(** ** Effects: the state of a run, exceptions, the event log *)

Record OutputRow : Type := mkRow {
  sellerId : str;
  sellerName : str;
  establishedCountry : str;
  amazonUrl : str;
  keepaUrl : str
}.

Inductive event : Type :=
| Print (msg : str)
| Sleep (secs : Z)
| SellerQuery (batch : list str)        (* api.seller_query(batch, ...) *)
| CsvHeader (fieldnames : list str)     (* w.writeheader() *)
| CsvRow (r : OutputRow).               (* w.writerow(r) *)

Record state : Type := mkState {
  rows : list OutputRow;
  log : list event
}.

(** [SystemExit] is not an [Exception]: [except Exception] lets it through. *)
Inductive exn : Type :=
| Exception (msg : str)
| SystemExit (msg : str).

Inductive outcome (A : Type) : Type :=
| Ok (a : A)
| Raised (e : exn).
Arguments Ok {A} a.
Arguments Raised {A} e.

Definition M (A : Type) : Type := state -> outcome A * state.

Definition ret {A : Type} (a : A) : M A := fun st => (Ok a, st).

Definition bind {A B : Type} (m : M A) (f : A -> M B) : M B :=
  fun st =>
    match m st with
    | (Ok a, st') => f a st'
    | (Raised e, st') => (Raised e, st')
    end.

Notation "x <- m ;; f" := (bind m (fun x => f))
  (at level 61, m at next level, right associativity).
Notation "m ;; f" := (bind m (fun _ => f))
  (at level 61, right associativity).

Definition raise {A : Type} (e : exn) : M A := fun st => (Raised e, st).

Definition emit (ev : event) : M unit :=
  fun st => (Ok tt, mkState (rows st) (log st ++ [ev])).

(** [rows.append(r)] *)
Definition append_row (r : OutputRow) : M unit :=
  fun st => (Ok tt, mkState (rows st ++ [r]) (log st)).

Definition get_rows : M (list OutputRow) := fun st => (Ok (rows st), st).

(** [try: body except Exception as e: handler(str(e))]; what the body did to
    the state before it raised stays done. *)
Definition try_except (body : M unit) (handler : str -> M unit) : M unit :=
  fun st =>
    match body st with
    | (Raised (Exception msg), st') => handler msg st'
    | r => r
    end.

Fixpoint for_each {K : Type} (ks : list K) (body : K -> M unit) : M unit :=
  match ks with
  | [] => ret tt
  | k :: ks' => body k ;; for_each ks' body
  end.

(** ** The script *)

Definition INPUT_FILE : str := "seller_ids.txt".
Definition OUTPUT_FILE : str := "gb_sellers_in_de.csv".
Definition BATCH : nat := 100.

Definition LF : ascii := "010".
Definition CR : ascii := "013".

(** Iterating a file opened in text mode: the lines with their terminator,
    each of LF, CR and CR LF read as LF. *)
Fixpoint lines_from (cur s : str) : list str :=
  match s with
  | [] => if nonempty cur then [cur] else []
  | c :: s' =>
      if Ascii.eqb c LF then (cur ++ [LF]) :: lines_from [] s'
      else if Ascii.eqb c CR then
        match s' with
        | c2 :: s'' =>
            if Ascii.eqb c2 LF then (cur ++ [LF]) :: lines_from [] s''
            else (cur ++ [LF]) :: lines_from [] s'
        | [] => [cur ++ [LF]]
        end
      else lines_from (cur ++ [c]) s'
  end.

Definition file_lines (content : str) : list str := lines_from [] content.

(** [range(start, stop, step)] for a positive step. *)
Fixpoint range_from (fuel start stop step : nat) : list nat :=
  match fuel with
  | O => []
  | S fuel' =>
      if start <? stop then start :: range_from fuel' (start + step) stop step
      else []
  end.

Definition range (start stop step : nat) : list nat :=
  range_from stop start stop step.

(** [l[i:j]] *)
Definition slice {A : Type} (l : list A) (i j : nat) : list A :=
  firstn (j - i) (skipn i l).

(** [country in {"GB", "UK"}] *)
Definition in_target (country : option str) : bool :=
  match country with
  | Some c => str_eqb c "GB" || str_eqb c "UK"
  | None => false
  end.

(** [str(s.get("sellerName") or "").strip()] *)
Definition seller_name (s : dict) : str :=
  strip (py_str (py_or (dict_get s "sellerName") (VStr ""))).

Definition make_row (sid : str) (s : dict) (country : str) : OutputRow :=
  mkRow sid (seller_name s) country (amazon_seller_url sid "DE") (keepa_seller_url sid "DE").

(** What the provider client does on one call. *)
Inductive response : Type :=
| Fails (e : str)          (* raises an Exception whose text is e *)
| Returns (data : value).

(** [data.get(sid)]: only a dict has the method. *)
Definition data_get (data : value) (sid : str) : M value :=
  match data with
  | VDict d => ret (dict_get d sid)
  | _ => raise (Exception ("'" ++ type_name data ++ "' object has no attribute 'get'"))
  end.

Section Run.

(** The provider client: its answer to a batch may depend on everything
    that happened before the call. *)
Variable seller_query : list event -> list str -> response.

(** The input file: its text, or [None] when there is no such file. *)
Variable input_file : option str.

Definition call_seller_query (batch : list str) : M value :=
  fun st =>
    let st' := mkState (rows st) (log st ++ [SellerQuery batch]) in
    match seller_query (log st) batch with
    | Fails e => (Raised (Exception e), st')
    | Returns data => (Ok data, st')
    end.

(** The body of [for sid in batch]. *)
Definition sid_body (data : value) (sid : str) : M unit :=
  s <- data_get data sid ;;
  match s with
  | VDict sd =>
      let country := extract_country_from_seller sd in
      if in_target country then
        match country with
        | Some c => append_row (make_row sid sd c)
        | None => ret tt
        end
      else ret tt
  | _ => ret tt
  end.

Definition warn_msg (i : nat) (e : str) : str :=
  "[warn] batch " ++ str_of_Z (Z.of_nat (i / BATCH + 1)) ++ " failed: " ++ e.

(** The body of [for i in range(0, len(seller_ids), BATCH)]. *)
Definition batch_body (seller_ids : list str) (i : nat) : M unit :=
  let batch := slice seller_ids i (i + BATCH) in
  try_except
    (data <- call_seller_query batch ;;
     for_each batch (sid_body data))
    (fun e => emit (Print (warn_msg i e)) ;; emit (Sleep 2)).

(** Step 1 of [main]: the identifiers, or the fatal error. *)
Definition read_seller_ids : M (list str) :=
  match input_file with
  | None =>
      raise (SystemExit ("Missing " ++ INPUT_FILE ++ ". Create it with one seller ID per line."))
  | Some content =>
      let seller_ids :=
        map strip (filter (fun line => nonempty (strip line)) (file_lines content)) in
      match seller_ids with
      | [] => raise (SystemExit (INPUT_FILE ++ " has no seller IDs. Add at least one."))
      | _ => ret seller_ids
      end
  end.

Definition query_all (seller_ids : list str) : M unit :=
  for_each (range 0 (length seller_ids) BATCH) (batch_body seller_ids).

Definition write_csv : M unit :=
  emit (CsvHeader ["sellerId"; "sellerName"; "establishedCountry"; "amazonUrl"; "keepaUrl"]) ;;
  rs <- get_rows ;;
  for_each rs (fun r => emit (CsvRow r)).

Definition main : M unit :=
  seller_ids <- read_seller_ids ;;
  query_all seller_ids ;;
  write_csv ;;
  rs <- get_rows ;;
  emit (Print ("Done. Wrote " ++ str_of_Z (Z.of_nat (length rs)) ++ " GB/UK sellers to "
               ++ OUTPUT_FILE)).

Definition initial : state := mkState [] [].

(** The rows the CSV writer was given, in order. *)
Definition csv_rows (l : list event) : list OutputRow :=
  flat_map (fun ev => match ev with CsvRow r => [r] | _ => [] end) l.

(** The batches the provider was asked about, in order. *)
Definition queried (l : list event) : list (list str) :=
  flat_map (fun ev => match ev with SellerQuery b => [b] | _ => [] end) l.

End Run.

(** * Vocabulary of the statements *)

(** Nothing but whitespace. *)
Definition blank (w : str) : bool := forallb isspace w.

(** A string that [strip] leaves alone. *)
Definition trimmed (s : str) : Prop := strip s = s.

(** The character a match of [w] leaves behind it: the last one of [w],
    or [prev] when [w] is empty. *)
Fixpoint last_of (prev : option ascii) (w : str) : option ascii :=
  match w with
  | [] => prev
  | c :: w' => last_of (Some c) w'
  end.

(** [Lang ic r prev w rest]: the pattern [r] matches the word [w] when the
    character before it is [prev] and the text after it is [rest].  An
    iteration of a repetition is never empty. *)
Inductive Lang (ic : bool) : Re.regex -> option ascii -> str -> str -> Prop :=
| LEps p rest : Lang ic Re.Eps p [] rest
| LLit l c p rest : Re.lit_match ic l c = true -> Lang ic (Re.Lit l) p [c] rest
| LSet q c p rest : Re.cls_match ic q c = true -> Lang ic (Re.Set_ q) p [c] rest
| LWordB p rest : Re.at_boundary p rest = true -> Lang ic Re.WordB p [] rest
| LCat a b p w1 w2 rest :
    Lang ic a p w1 (w2 ++ rest) -> Lang ic b (last_of p w1) w2 rest ->
    Lang ic (Re.Cat a b) p (w1 ++ w2) rest
| LAltL a b p w rest : Lang ic a p w rest -> Lang ic (Re.Alt a b) p w rest
| LAltR a b p w rest : Lang ic b p w rest -> Lang ic (Re.Alt a b) p w rest
| LStar0 a p rest : Lang ic (Re.Star a) p [] rest
| LStarS a p w1 w2 rest :
    w1 <> [] -> Lang ic a p w1 (w2 ++ rest) ->
    Lang ic (Re.Star a) (last_of p w1) w2 rest ->
    Lang ic (Re.Star a) p (w1 ++ w2) rest.

(** What [matches] is meant to compute. *)
Definition accepts (ic : bool) (r : Re.regex) (p : option ascii) (s : str)
    (k : option ascii -> str -> bool) : Prop :=
  exists w rest, s = w ++ rest /\ Lang ic r p w rest /\ k (last_of p w) rest = true.


(** Exactly two letters of [A-Za-z]. *)
Definition two_letters (s : str) : Prop :=
  exists a b, s = [a; b] /\ isalpha a = true /\ isalpha b = true.





(** A determined country is normalized: trimmed and in upper case. *)
Definition normalized (c : str) : Prop := strip c = c /\ upper c = c.


(** [a] is [b] with some elements left out, the order kept. *)
Inductive subseq {A : Type} : list A -> list A -> Prop :=
| subseq_nil : subseq [] []
| subseq_skip x a b : subseq a b -> subseq a (x :: b)
| subseq_take x a b : subseq a b -> subseq (x :: a) (x :: b).

(** What running [m] from [st] does: its outcome, the rows it appends and
    the events it logs.  Nothing else of the state ever changes. *)
Definition effect {A : Type} (m : M A) (st : state) (o : outcome A)
    (R : list OutputRow) (L : list event) : Prop :=
  fst (m st) = o /\ rows (snd (m st)) = rows st ++ R /\ log (snd (m st)) = log st ++ L.

(** A row built from the record that [data] holds for the row's seller,
    the inferred country of that record being GB or UK. *)
Definition row_of_data (data : value) (r : OutputRow) : Prop :=
  exists d sd c, data = VDict d /\ dict_get d (sellerId r) = VDict sd /\
                 r = make_row (sellerId r) sd c /\
                 extract_country_from_seller sd = Some c /\ (c = "GB" \/ c = "UK").

(** A row built from an answer of the provider. *)
Definition row_answered (seller_query : list event -> list str -> response)
    (r : OutputRow) : Prop :=
  exists l batch data, seller_query l batch = Returns data /\ row_of_data data r.

(** An outcome that leaves the run alive: a normal end, or an exception
    that [except Exception] catches. *)
Definition no_exit (o : outcome unit) : Prop :=
  o = Ok tt \/ exists msg, o = Raised (Exception msg).

(** The batch that starts at index [i]. *)
Definition chunk_of (seller_ids : list str) (i : nat) : list str :=
  slice seller_ids i (i + BATCH).

(** The input as the specification words it: the lines that are not blank,
    each trimmed, in the order of the file. *)
Definition spec_trimmed_nonblank_lines (content : str) : list str :=
  map strip (filter (fun line => negb (blank line)) (file_lines content)).

(** The identifiers a run works on: none when there is no file. *)
Definition input_ids (input_file : option str) : list str :=
  match input_file with
  | Some content => spec_trimmed_nonblank_lines content
  | None => []
  end.

(** The two fatal messages, [INPUT_FILE] filled in. *)
Definition missing_msg : str :=
  "Missing seller_ids.txt. Create it with one seller ID per line.".

Definition empty_msg : str := "seller_ids.txt has no seller IDs. Add at least one.".

(** The header of the CSV file. *)
Definition fieldnames : list str :=
  ["sellerId"; "sellerName"; "establishedCountry"; "amazonUrl"; "keepaUrl"].

(** The closing line of a run. *)
Definition done_msg (rs : list OutputRow) : str :=
  "Done. Wrote " ++ str_of_Z (Z.of_nat (length rs)) ++ " GB/UK sellers to "
  ++ OUTPUT_FILE.

(** What is left of [main] once the identifiers are read. *)
Definition after_read (seller_query : list event -> list str -> response)
    (seller_ids : list str) : M unit :=
  query_all seller_query seller_ids ;;
  write_csv ;;
  rs <- get_rows ;;
  emit (Print (done_msg rs)).

(** A provider whose first call fails and whose later calls answer. *)
Definition flaky_provider (l : list event) (batch : list str) : response :=
  match l with
  | [] => Fails "timeout"
  | _ => Returns (VDict [("S1", VDict [("country", VStr "GB")])])
  end.

(** Characters and a file for the examples. *)
Definition TAB : ascii := "009".
Definition FF : ascii := "012".
Definition FS : ascii := "028".

Definition sample_file : str :=
  " A1 " ++ [CR; LF; CR; LF] ++ "B2" ++ [CR] ++ "C3" ++ [LF] ++ " " ++ [TAB] ++ " " ++ [LF]
  ++ "A1" ++ [LF; FF] ++ "D4" ++ [FS].

(** A two-letter code in upper case. *)
Definition upper_code (c : str) : Prop :=
  exists a b, c = [a; b] /\ in_range "A" "Z" a = true /\ in_range "A" "Z" b = true.

(** The rows one identifier gives when the answer of the provider is the
    dict [d]. *)
Definition row_for (d : dict) (sid : str) : list OutputRow :=
  match dict_get d sid with
  | VDict sd =>
      match extract_country_from_seller sd with
      | Some c => if in_target (Some c) then [make_row sid sd c] else []
      | None => []
      end
  | _ => []
  end.

(** What one batch leaves in the log: its query, alone or followed by the
    warning for this batch and the pause. *)
Definition batch_events (seller_ids : list str) (i : nat) (seg : list event) : Prop :=
  seg = [SellerQuery (chunk_of seller_ids i)] \/
  exists e, seg = [SellerQuery (chunk_of seller_ids i); Print (warn_msg i e); Sleep 2].

(** What the end of a run leaves in the log: the header, the rows, the
    closing line. *)
Definition closing (R : list OutputRow) : list event :=
  CsvHeader fieldnames :: map CsvRow R ++ [Print (done_msg R)].

(** The time slept in all, as the log tells it. *)
Definition total_sleep (l : list event) : Z :=
  fold_right (fun ev acc => match ev with Sleep n => (n + acc)%Z | _ => acc end) 0%Z l.

(** The keys [extract_country_from_seller] reads in a record. *)
Definition inference_keys : list str := direct_keys ++ candidate_keys ++ ["extra"].


(** ** Independent wording

    The notions below are written out by hand, character by character, and
    call none of the functions of the embedding: the claims measure the
    code against them. *)

(** The whitespace characters: TAB, LF, VT, FF, CR, FS, GS, RS, US and the
    blank. *)
Definition spec_whitespace (c : ascii) : Prop :=
  In c ["009"; "010"; "011"; "012"; "013"; "028"; "029"; "030"; "031"; " "]%char.

Definition spec_lower_letters : str := "abcdefghijklmnopqrstuvwxyz".



(** Neither the first nor the last character is whitespace. *)
Definition spec_edges_solid (c : str) : Prop :=
  (forall x t, c = x :: t -> ~ spec_whitespace x) /\
  (forall t x, c = t ++ [x] -> ~ spec_whitespace x).



(** The text of a file as reading in text mode hands it over: CR LF and a
    lone CR each become LF. *)
Fixpoint spec_universal_newlines (s : str) : str :=
  match s with
  | [] => []
  | c :: s' =>
      if Ascii.eqb c CR then
        LF :: match s' with
              | c2 :: s'' =>
                  if Ascii.eqb c2 LF then spec_universal_newlines s''
                  else spec_universal_newlines s'
              | [] => []
              end
      else c :: spec_universal_newlines s'
  end.

(** A line: a text free of LF and CR, ended by LF, or not empty and left
    without end at the end of the file. *)
Definition spec_line (line : str) : Prop :=
  exists body, ~ In LF body /\ ~ In CR body /\
               (line = body ++ [LF] \/ (line = body /\ body <> [])).

(** [id] is [line] without the whitespace at its two ends. *)
Definition spec_trimmed_of (line id : str) : Prop :=
  exists w1 w2, line = w1 ++ id ++ w2 /\ Forall spec_whitespace w1 /\
                Forall spec_whitespace w2 /\ spec_edges_solid id.

(** [spec_loaded lines ids]: going through the lines in order, a line of
    nothing but whitespace gives nothing, and any other line gives its
    trimmed text. *)
Inductive spec_loaded : list str -> list str -> Prop :=
| loaded_end : spec_loaded [] []
| loaded_blank line lines ids :
    Forall spec_whitespace line -> spec_loaded lines ids ->
    spec_loaded (line :: lines) ids
| loaded_id line id lines ids :
    spec_trimmed_of line id -> id <> [] -> spec_loaded lines ids ->
    spec_loaded (line :: lines) (id :: ids).

(** * Facts about strings *)

Ltac all_chars c := destruct c as [[] [] [] [] [] [] [] []].

Lemma isspace_upper_char (c : ascii) : isspace (upper_char c) = isspace c.
Proof. all_chars c; reflexivity. Qed.

Lemma upper_char_idem (c : ascii) : upper_char (upper_char c) = upper_char c.
Proof. all_chars c; reflexivity. Qed.

Lemma isalpha_not_space (c : ascii) : isalpha c = true -> isspace c = false.
Proof. all_chars c; simpl; intros H; try reflexivity; discriminate H. Qed.

Lemma isalpha_isword (c : ascii) : isalpha c = true -> isword c = true.
Proof. unfold isword. intros ->. reflexivity. Qed.

Lemma upper_idem (s : str) : upper (upper s) = upper s.
Proof.
  unfold upper. rewrite map_map. apply map_ext. intros c. apply upper_char_idem.
Qed.

Lemma lstrip_length (s : str) : length (lstrip s) <= length s.
Proof.
  induction s as [|c s IH]; simpl; [lia|].
  destruct (isspace c); simpl; lia.
Qed.

Lemma lstrip_blank_app (w s : str) : blank w = true -> lstrip (w ++ s) = lstrip s.
Proof.
  induction w as [|c w IH]; simpl; intros H; [reflexivity|].
  apply andb_prop in H. destruct H as [Hc Hw]. rewrite Hc. auto.
Qed.

Lemma lstrip_blank (w : str) : blank w = true -> lstrip w = [].
Proof.
  intros H. rewrite <- (app_nil_r w). rewrite lstrip_blank_app by exact H. reflexivity.
Qed.

Lemma lstrip_decomp (s : str) : exists w, blank w = true /\ s = w ++ lstrip s.
Proof.
  induction s as [|c s [w [Hw Hs]]]; simpl.
  - exists []. split; reflexivity.
  - destruct (isspace c) eqn:Hc.
    + exists (c :: w). simpl. rewrite Hc, Hw. split; [reflexivity|]. f_equal. exact Hs.
    + exists []. split; reflexivity.
Qed.

Lemma lstrip_head (s : str) :
  lstrip s = [] \/ exists c t, lstrip s = c :: t /\ isspace c = false.
Proof.
  induction s as [|c s IH]; simpl; [now left|].
  destruct (isspace c) eqn:Hc; [exact IH|].
  right. exists c, s. split; [reflexivity | exact Hc].
Qed.

Lemma lstrip_fixed (c : ascii) (s : str) : isspace c = false -> lstrip (c :: s) = c :: s.
Proof. intros H. simpl. rewrite H. reflexivity. Qed.

Lemma lstrip_idem (s : str) : lstrip (lstrip s) = lstrip s.
Proof.
  destruct (lstrip_head s) as [-> | [c [t [-> Hc]]]]; [reflexivity|].
  apply lstrip_fixed, Hc.
Qed.

Lemma lstrip_app_solid (u t : str) (c : ascii) :
  isspace c = false -> lstrip (u ++ c :: t) = lstrip u ++ c :: t.
Proof.
  intros Hc. induction u as [|a u IH]; simpl.
  - rewrite Hc. reflexivity.
  - destruct (isspace a); [exact IH | reflexivity].
Qed.

Lemma lstrip_upper (s : str) : lstrip (upper s) = upper (lstrip s).
Proof.
  induction s as [|c s IH]; simpl; [reflexivity|].
  rewrite isspace_upper_char. destruct (isspace c); [exact IH | reflexivity].
Qed.

Lemma rstrip_upper (s : str) : rstrip (upper s) = upper (rstrip s).
Proof.
  unfold rstrip, upper. rewrite <- map_rev.
  change (map upper_char (rev s)) with (upper (rev s)).
  rewrite lstrip_upper. unfold upper. rewrite map_rev. reflexivity.
Qed.

Lemma strip_upper (s : str) : strip (upper s) = upper (strip s).
Proof. unfold strip. rewrite lstrip_upper, rstrip_upper. reflexivity. Qed.

Lemma blank_rev (w : str) : blank (rev w) = blank w.
Proof.
  unfold blank. induction w as [|c w IH]; simpl; [reflexivity|].
  rewrite forallb_app, IH. simpl. rewrite andb_true_r. apply andb_comm.
Qed.

Lemma blank_app (a b : str) : blank (a ++ b) = blank a && blank b.
Proof. apply forallb_app. Qed.

Lemma rstrip_app_blank (s w : str) : blank w = true -> rstrip (s ++ w) = rstrip s.
Proof.
  intros H. unfold rstrip. rewrite rev_app_distr, lstrip_blank_app; [reflexivity|].
  rewrite blank_rev. exact H.
Qed.

Lemma rstrip_decomp (s : str) : exists w, blank w = true /\ s = rstrip s ++ w.
Proof.
  destruct (lstrip_decomp (rev s)) as [w [Hw Hs]].
  exists (rev w). split; [rewrite blank_rev; exact Hw|].
  unfold rstrip. rewrite <- rev_app_distr, <- Hs, rev_involutive. reflexivity.
Qed.

Lemma rstrip_idem (s : str) : rstrip (rstrip s) = rstrip s.
Proof. unfold rstrip. rewrite rev_involutive, lstrip_idem. reflexivity. Qed.

Lemma rstrip_solid_cons (c : ascii) (s : str) :
  isspace c = false -> exists r, rstrip (c :: s) = c :: r.
Proof.
  intros Hc. unfold rstrip. simpl.
  rewrite lstrip_app_solid by exact Hc. rewrite rev_app_distr. simpl.
  eexists. reflexivity.
Qed.

Lemma rstrip_solid_end (s : str) (c : ascii) :
  isspace c = false -> rstrip (s ++ [c]) = s ++ [c].
Proof.
  intros Hc. unfold rstrip. rewrite rev_app_distr. simpl. rewrite Hc.
  change (c :: rev s) with (rev [c] ++ rev s).
  rewrite <- rev_app_distr, rev_involutive. reflexivity.
Qed.

Lemma lstrip_strip (s : str) : lstrip (strip s) = strip s.
Proof.
  unfold strip. destruct (lstrip_head s) as [-> | [c [t [-> Hc]]]]; [reflexivity|].
  destruct (rstrip_solid_cons c t Hc) as [r ->]. apply lstrip_fixed, Hc.
Qed.

Lemma strip_idem (s : str) : trimmed (strip s).
Proof.
  unfold trimmed. unfold strip at 1. rewrite lstrip_strip.
  unfold strip. apply rstrip_idem.
Qed.

Lemma trimmed_upper (s : str) : trimmed s -> trimmed (upper s).
Proof. unfold trimmed. intros H. rewrite strip_upper, H. reflexivity. Qed.

Lemma trimmed_lstrip (s : str) : trimmed s -> lstrip s = s.
Proof. unfold trimmed. intros H. rewrite <- H. apply lstrip_strip. Qed.

Lemma strip_decomp (s : str) :
  exists w1 w2, blank w1 = true /\ blank w2 = true /\ s = w1 ++ strip s ++ w2.
Proof.
  destruct (lstrip_decomp s) as [w1 [H1 Hs]].
  destruct (rstrip_decomp (lstrip s)) as [w2 [H2 Hl]].
  exists w1, w2. split; [exact H1|]. split; [exact H2|].
  unfold strip. rewrite <- Hl. exact Hs.
Qed.

Lemma strip_blank (w : str) : blank w = true -> strip w = [].
Proof. intros H. unfold strip. rewrite lstrip_blank by exact H. reflexivity. Qed.

Lemma strip_frame (w1 core w2 : str) :
  blank w1 = true -> blank w2 = true -> trimmed core ->
  strip (w1 ++ core ++ w2) = core.
Proof.
  intros H1 H2 Hc. unfold strip. rewrite lstrip_blank_app by exact H1.
  pose proof (trimmed_lstrip core Hc) as Hl.
  destruct core as [|c core].
  - simpl. rewrite lstrip_blank by exact H2. reflexivity.
  - assert (Hsp : isspace c = false).
    { simpl in Hl. destruct (isspace c); [|reflexivity].
      pose proof (lstrip_length core) as Hlen. rewrite Hl in Hlen. simpl in Hlen. lia. }
    change ((c :: core) ++ w2) with (c :: (core ++ w2)).
    rewrite lstrip_fixed by exact Hsp.
    change (c :: (core ++ w2)) with ((c :: core) ++ w2).
    rewrite rstrip_app_blank by exact H2.
    unfold trimmed, strip in Hc. rewrite Hl in Hc. exact Hc.
Qed.


(** * What a pattern matches: [matches] computes [Lang] *)

Lemma last_of_app (p : option ascii) (a b : str) :
  last_of p (a ++ b) = last_of (last_of p a) b.
Proof. revert p. induction a as [|c a IH]; intros p; simpl; [reflexivity | apply IH]. Qed.

Section StarLoop.

Variables (ic : bool) (a : Re.regex).
Variable body : option ascii -> str -> (option ascii -> str -> bool) -> bool.
Hypothesis body_ok : forall p s k, body p s k = true <-> accepts ic a p s k.
Variable k : option ascii -> str -> bool.

Lemma star_loop_sound (fuel : nat) :
  forall p s, Re.star_loop body k fuel p s = true -> accepts ic (Re.Star a) p s k.
Proof.
  induction fuel as [|fuel IH]; intros p s H; simpl in H; apply orb_prop in H.
  - destruct H as [H | H]; [|discriminate H].
    exists [], s. split; [reflexivity|]. split; [constructor | exact H].
  - destruct H as [H | H].
    + exists [], s. split; [reflexivity|]. split; [constructor | exact H].
    + apply body_ok in H. destruct H as [w1 [rest1 [Hs [Ha Hk]]]].
      apply andb_prop in Hk. destruct Hk as [Hlen Hk].
      apply IH in Hk. destruct Hk as [w2 [rest [Hs2 [Hstar Hk]]]].
      subst rest1. exists (w1 ++ w2), rest.
      split; [rewrite <- app_assoc; exact Hs|].
      split; [|rewrite last_of_app; exact Hk].
      apply LStarS; [| exact Ha | exact Hstar].
      intros ->. subst s. simpl in Hlen. apply Nat.ltb_lt in Hlen. lia.
Qed.

Lemma star_loop_complete (fuel : nat) :
  forall p w rest, Lang ic (Re.Star a) p w rest -> k (last_of p w) rest = true ->
    length (w ++ rest) <= fuel -> Re.star_loop body k fuel p (w ++ rest) = true.
Proof.
  induction fuel as [|fuel IH]; intros p w rest HL Hk Hlen.
  - destruct w as [|c w]; [|simpl in Hlen; lia].
    simpl in *. rewrite Hk. reflexivity.
  - inversion HL as [| | | | | | | a' p' rest' | a' p' w1 w2 rest' Hne Ha Hstar]; subst.
    + simpl in *. rewrite Hk. reflexivity.
    + simpl. apply orb_true_intro. right. apply body_ok.
      exists w1, (w2 ++ rest). split; [apply eq_sym, app_assoc|]. split; [exact Ha|].
      assert (Hlt : length (w2 ++ rest) < length ((w1 ++ w2) ++ rest)).
      { rewrite <- app_assoc. rewrite (length_app w1). destruct w1; [congruence | simpl; lia]. }
      apply andb_true_intro. split; [apply Nat.ltb_lt; exact Hlt|].
      apply IH; [exact Hstar | rewrite <- last_of_app; exact Hk | lia].
Qed.

End StarLoop.

Theorem matches_spec (ic : bool) (r : Re.regex) :
  forall p s k, Re.matches r ic p s k = true <-> accepts ic r p s k.
Proof.
  induction r as [| l | q | | a IHa b IHb | a IHa b IHb | a IHa]; intros p s k; simpl.
  - split.
    + intros H. exists [], s. repeat split; [constructor | exact H].
    + intros [w [rest [Hs [HL Hk]]]]. inversion HL; subst. exact Hk.
  - split.
    + destruct s as [|c s]; [discriminate|]. intros H. apply andb_prop in H.
      destruct H as [Hc Hk]. exists [c], s. repeat split; [constructor; exact Hc | exact Hk].
    + intros [w [rest [Hs [HL Hk]]]]. inversion HL; subst. simpl in *.
      apply andb_true_intro. split; assumption.
  - split.
    + destruct s as [|c s]; [discriminate|]. intros H. apply andb_prop in H.
      destruct H as [Hc Hk]. exists [c], s. repeat split; [constructor; exact Hc | exact Hk].
    + intros [w [rest [Hs [HL Hk]]]]. inversion HL; subst. simpl in *.
      apply andb_true_intro. split; assumption.
  - split.
    + intros H. apply andb_prop in H. destruct H as [Hb Hk].
      exists [], s. repeat split; [constructor; exact Hb | exact Hk].
    + intros [w [rest [Hs [HL Hk]]]]. inversion HL; subst. simpl in *.
      apply andb_true_intro. split; assumption.
  - rewrite IHa. split.
    + intros [w1 [rest1 [Hs [Ha Hk]]]]. apply IHb in Hk.
      destruct Hk as [w2 [rest [Hs2 [Hb Hk]]]]. subst rest1.
      exists (w1 ++ w2), rest. split; [rewrite <- app_assoc; exact Hs|].
      split; [constructor; assumption | rewrite last_of_app; exact Hk].
    + intros [w [rest [Hs [HL Hk]]]]. inversion HL; subst.
      exists w1, (w2 ++ rest). split; [apply eq_sym, app_assoc|]. split; [assumption|].
      apply IHb. exists w2, rest. repeat split; [assumption|].
      rewrite <- last_of_app. exact Hk.
  - rewrite orb_true_iff, IHa, IHb. split.
    + intros [[w [rest [Hs [HL Hk]]]] | [w [rest [Hs [HL Hk]]]]];
        exists w, rest; repeat split; auto using LAltL, LAltR.
    + intros [w [rest [Hs [HL Hk]]]]. inversion HL; subst; [left | right];
        exists w, rest; repeat split; assumption.
  - split.
    + apply star_loop_sound. exact IHa.
    + intros [w [rest [Hs [HL Hk]]]]. subst s.
      apply star_loop_complete with (ic := ic) (a := a); auto.
Qed.

Lemma fullmatch_spec (ic : bool) (r : Re.regex) (s : str) :
  Re.fullmatch r ic s = true <-> Lang ic r None s [].
Proof.
  unfold Re.fullmatch. rewrite matches_spec. split.
  - intros [w [rest [Hs [HL Hk]]]]. destruct rest; [|discriminate Hk].
    rewrite app_nil_r in Hs. subst w. exact HL.
  - intros HL. exists s, []. rewrite app_nil_r. repeat split. exact HL.
Qed.



(** ** The building blocks of the script's patterns *)

Lemma cls_space (ic : bool) (c : ascii) : Re.cls_match ic Re.Space c = isspace c.
Proof. destruct ic; all_chars c; reflexivity. Qed.

Lemma cls_letters (c : ascii) :
  Re.cls_match false (Re.Union (Re.Range "A" "Z") (Re.Range "a" "z")) c = isalpha c.
Proof. unfold Re.cls_match. simpl. apply orb_false_r. Qed.

Lemma lang_spaces (ic : bool) (p : option ascii) (w rest : str) :
  Lang ic (Re.Star (Re.Set_ Re.Space)) p w rest <-> blank w = true.
Proof.
  split.
  - intros HL. remember (Re.Star (Re.Set_ Re.Space)) as r eqn:Hr.
    induction HL as [| | | | | | | |a p w1 w2 rest Hne Ha _ Hstar IH]; try discriminate Hr.
    + reflexivity.
    + injection Hr as ->. inversion Ha; subst.
      rewrite blank_app, (IH eq_refl). simpl.
      rewrite cls_space in *. rewrite andb_true_r, andb_true_r. assumption.
  - revert p. induction w as [|c w IH]; intros p Hb; [constructor|].
    simpl in Hb. apply andb_prop in Hb. destruct Hb as [Hc Hw].
    change (c :: w) with ([c] ++ w). apply LStarS; [discriminate | | apply IH, Hw].
    constructor. rewrite cls_space. exact Hc.
Qed.


Lemma lang_two_letters (p : option ascii) (w rest : str) :
  Lang false re_two_letters p w rest <-> two_letters w.
Proof.
  unfold re_two_letters, Re.Twice, two_letters. split.
  - intros HL. inversion HL as [| | | |a b p' w1 w2 rest' H1 H2| | | |]; subst.
    inversion H1; subst. inversion H2; subst. rewrite cls_letters in *.
    eexists _, _. split; [reflexivity|]. split; assumption.
  - intros [a [b [-> [Ha Hb]]]]. change [a; b] with ([a] ++ [b]).
    constructor; constructor; rewrite cls_letters; assumption.
Qed.

Lemma fullmatch_two_letters (s : str) :
  Re.fullmatch re_two_letters false s = true <-> two_letters s.
Proof. rewrite fullmatch_spec. apply lang_two_letters. Qed.

Lemma two_letters_trimmed (s : str) : two_letters s -> trimmed s.
Proof.
  intros [a [b [-> [Ha Hb]]]]. apply isalpha_not_space in Ha, Hb.
  unfold trimmed, strip. rewrite lstrip_fixed by exact Ha.
  change [a; b] with ([a] ++ [b]). apply rstrip_solid_end, Hb.
Qed.

Lemma fullmatch_padded_two_letters (s : str) :
  Re.fullmatch re_padded_two_letters false s = true <-> two_letters (strip s).
Proof.
  rewrite fullmatch_spec. unfold re_padded_two_letters. split.
  - intros HL. inversion HL as [| | | |a b p' w1 w23 rest' H1 H23| | | |]; subst.
    inversion H23 as [| | | |a b p' w2 w3 rest' H2 H3| | | |]; subst.
    apply lang_spaces in H1, H3. apply lang_two_letters in H2.
    rewrite strip_frame; auto using two_letters_trimmed.
  - intros H2. destruct (strip_decomp s) as [w1 [w3 [H1 [H3 Hs]]]].
    rewrite Hs. constructor; [apply lang_spaces, H1|].
    constructor; [apply lang_two_letters, H2 | apply lang_spaces, H3].
Qed.










(** * The embedding against the independent wording *)

Ltac pick_member := simpl; repeat (first [left; reflexivity | right]).
Ltac no_member H :=
  simpl in H; repeat (destruct H as [H | H]; [discriminate H|]); exact H.

Lemma isspace_spec (c : ascii) : isspace c = true <-> spec_whitespace c.
Proof.
  unfold spec_whitespace.
  all_chars c; (split; [intros H; vm_compute in H; try discriminate H; pick_member
                       | intros H; try reflexivity; exfalso; no_member H]).
Qed.

Lemma lower_letter_spec (c : ascii) :
  in_range "a" "z" c = true <-> In c spec_lower_letters.
Proof.
  unfold spec_lower_letters.
  all_chars c; (split; [intros H; vm_compute in H; try discriminate H; pick_member
                       | intros H; try reflexivity; exfalso; no_member H]).
Qed.



Lemma blank_spec (w : str) : blank w = true <-> Forall spec_whitespace w.
Proof.
  unfold blank. rewrite forallb_forall, Forall_forall.
  split; intros H x Hx; apply isspace_spec, H, Hx.
Qed.

Lemma lstrip_fixed_head (x : ascii) (t : str) :
  lstrip (x :: t) = x :: t -> isspace x = false.
Proof.
  simpl. destruct (isspace x); [|reflexivity].
  intros H. pose proof (lstrip_length t) as Hlen. rewrite H in Hlen. simpl in Hlen. lia.
Qed.

Lemma trimmed_edges (c : str) : strip c = c -> spec_edges_solid c.
Proof.
  intros Hc. pose proof (trimmed_lstrip c Hc) as Hl. split.
  - intros x t -> Hx. apply isspace_spec in Hx.
    rewrite (lstrip_fixed_head x t Hl) in Hx. discriminate Hx.
  - intros t x -> Hx. apply isspace_spec in Hx.
    unfold strip in Hc. rewrite Hl in Hc. unfold rstrip in Hc.
    rewrite rev_app_distr in Hc. simpl in Hc. rewrite Hx in Hc.
    apply (f_equal (@length ascii)) in Hc.
    rewrite length_rev, length_app in Hc. simpl in Hc.
    pose proof (lstrip_length (rev t)) as Hlen. rewrite length_rev in Hlen. lia.
Qed.

Lemma upper_fixed_no_lower (c : str) :
  upper c = c -> forall x, In x c -> ~ In x spec_lower_letters.
Proof.
  unfold upper. induction c as [|a c IH]; intros H x Hx; [destruct Hx|].
  simpl in H. injection H as Ha Hc. destruct Hx as [<- | Hx]; [|exact (IH Hc x Hx)].
  intros Hl. apply lower_letter_spec in Hl. unfold upper_char in Ha. rewrite Hl in Ha.
  revert Hl Ha. clear. all_chars a; intros Hl Ha; try discriminate Hl; discriminate Ha.
Qed.

(** * Country inference *)

Lemma for_return_some {K R : Type} (ks : list K) (body : K -> option R) (r : R) :
  for_return ks body = Some r ->
  exists pre k post, ks = pre ++ k :: post /\ body k = Some r /\
                     forall k', In k' pre -> body k' = None.
Proof.
  induction ks as [|k ks IH]; simpl; [discriminate|].
  destruct (body k) as [r'|] eqn:Hk.
  - intros H. injection H as ->. exists [], k, ks. simpl. tauto.
  - intros H. destruct (IH H) as [pre [k0 [post [-> [Hb Hpre]]]]].
    exists (k :: pre), k0, post. simpl. repeat split; auto.
    intros k' [<- | Hin]; auto.
Qed.

Lemma for_return_first {K R : Type} (pre post : list K) (k : K) (body : K -> option R) :
  (forall k', In k' pre -> body k' = None) ->
  for_return (pre ++ k :: post) body =
  match body k with Some r => Some r | None => for_return post body end.
Proof.
  induction pre as [|a pre IH]; simpl; intros H; [reflexivity|].
  rewrite (H a) by auto. apply IH. auto.
Qed.

Lemma for_return_none {K R : Type} (ks : list K) (body : K -> option R) :
  for_return ks body = None <-> forall k, In k ks -> body k = None.
Proof.
  induction ks as [|k ks IH]; simpl.
  - tauto.
  - destruct (body k) eqn:Hk.
    + split; [discriminate|]. intros H. rewrite <- Hk. apply H. auto.
    + rewrite IH. split; [intros H k' [<- | Hin]; auto | auto].
Qed.

Lemma normalized_upper_strip (s : str) : normalized (upper (strip s)).
Proof.
  split; [apply trimmed_upper, strip_idem | apply upper_idem].
Qed.

Lemma explicit_field_normalized (v : value) (c : str) :
  explicit_field v = Some c -> normalized c.
Proof.
  destruct v; simpl; try discriminate.
  destruct (nonempty (strip s)); [|discriminate].
  intros H. injection H as <-. apply normalized_upper_strip.
Qed.

Lemma address_field_normalized (v : value) (c : str) :
  address_field v = Some c -> normalized c.
Proof.
  destruct v as [| | | |s|l|]; try discriminate.
  - simpl. destruct (nonempty (strip s)); [|discriminate].
    destruct (Re.fullmatch re_padded_two_letters false _).
    + intros H. injection H as <-. apply normalized_upper_strip.
    + destruct (Re.search re_uk true s); [|discriminate].
      intros H. injection H as <-. split; reflexivity.
  - destruct l as [|x l]; [discriminate|]. unfold address_field.
    set (item := strip (py_str (last (x :: l) VNone))).
    destruct (Re.fullmatch re_two_letters false item).
    + intros H. injection H as <-. apply normalized_upper_strip.
    + destruct (Re.search re_uk true item); [|discriminate].
      intros H. injection H as <-. split; reflexivity.
Qed.

(** C10: whatever path [extract_country_from_seller] returns through (an
    explicit field, the last element of an address list, the trailing
    segment of an address string, the literal GB, the extra mapping), a
    determined result has no leading or trailing whitespace and equals its
    own upper-cased form: [strip] and [upper] leave it as it is and, said
    without them, its first and its last character are no whitespace and
    none of its characters is a lower-case letter. *)
Theorem C10_result_normalized (seller_obj : dict) (c : str) :
  extract_country_from_seller seller_obj = Some c ->
  (strip c = c /\ upper c = c) /\
  (forall x t, c = x :: t -> ~ spec_whitespace x) /\
  (forall t x, c = t ++ [x] -> ~ spec_whitespace x) /\
  (forall x, In x c -> ~ In x spec_lower_letters).
Proof.
  intros H.
  assert (Hn : normalized c).
  { revert H. unfold extract_country_from_seller, explicit_loop, address_loop.
    destruct (for_return direct_keys _) as [c1|] eqn:H1.
    - intros H. injection H as <-.
      apply for_return_some in H1. destruct H1 as [_ [k [_ [_ [H _]]]]].
      exact (explicit_field_normalized _ _ H).
    - destruct (for_return candidate_keys _) as [c2|] eqn:H2.
      + intros H. injection H as <-.
        apply for_return_some in H2. destruct H2 as [_ [k [_ [_ [H _]]]]].
        exact (address_field_normalized _ _ H).
      + destruct (dict_get seller_obj "extra"); try discriminate.
        intros H. apply for_return_some in H. destruct H as [_ [k [_ [_ [H _]]]]].
        exact (explicit_field_normalized _ _ H). }
  destruct Hn as [Hs Hu]. split; [split; assumption|].
  destruct (trimmed_edges c Hs) as [Hfirst Hlast].
  split; [exact Hfirst|]. split; [exact Hlast|].
  exact (upper_fixed_no_lower c Hu).
Qed.

Lemma C10_witness :
  extract_country_from_seller [("country", VStr " gb ")] = Some "GB" /\
  (strip "GB" = "GB" /\ upper "GB" = "GB") /\
  (forall x t, "GB" = x :: t -> ~ spec_whitespace x) /\
  (forall t x, "GB" = t ++ [x] -> ~ spec_whitespace x) /\
  (forall x, In x "GB" -> ~ In x spec_lower_letters).
Proof.
  split; [reflexivity|].
  apply (C10_result_normalized [("country", VStr " gb ")] "GB").
  reflexivity.
Defined.

(** ** The trailing segment of a comma-separated string *)















Lemma strip_empty_blank (s : str) : strip s = [] -> blank s = true.
Proof.
  intros H. destruct (strip_decomp s) as [w1 [w2 [H1 [H2 Hs]]]].
  rewrite Hs, H, !blank_app, H1, H2. reflexivity.
Qed.

Lemma nonempty_true (s : str) : nonempty s = true <-> s <> [].
Proof. destruct s; simpl; split; congruence. Qed.



Lemma explicit_field_blank (v : value) :
  (forall s, v = VStr s -> strip s = []) -> explicit_field v = None.
Proof.
  intros H. destruct v; try reflexivity. simpl. rewrite (H s eq_refl). reflexivity.
Qed.

Lemma explicit_field_solid (v : str) :
  strip v <> [] -> explicit_field (VStr v) = Some (upper (strip v)).
Proof. intros H. simpl. apply nonempty_true in H. rewrite H. reflexivity. Qed.

Lemma explicit_loop_first (keys pre post : list str) (k v : str) (d : dict) :
  keys = pre ++ k :: post ->
  (forall k', In k' pre -> forall s, dict_get d k' = VStr s -> strip s = []) ->
  dict_get d k = VStr v -> strip v <> [] ->
  explicit_loop keys d = Some (upper (strip v)).
Proof.
  intros -> Hpre Hk Hv. unfold explicit_loop.
  rewrite for_return_first.
  - rewrite Hk, (explicit_field_solid v Hv). reflexivity.
  - intros k' Hin. apply explicit_field_blank. exact (Hpre k' Hin).
Qed.






















(** C6, as stated, fails: with a whitespace string under country and a
    code under countryCode in the extra mapping, countryCode decides. *)
Lemma C6_counterexample :
  dict_get [("country", VStr " "); ("countryCode", VStr "gb")] "country" = VStr " " /\
  nonempty " " = true /\
  upper (strip " ") = "" /\
  extract_country_from_seller
    [("extra", VDict [("country", VStr " "); ("countryCode", VStr "gb")])] = Some "GB".
Proof. repeat split; reflexivity. Qed.

(** C6, amended: when steps 1 and 2 determine nothing and extra is a
    mapping, its keys country, countryCode and establishedCountry are gone
    through in that order, and the first of them holding a string that is
    not empty after trimming decides: that string is returned trimmed and
    upper-cased.  So country wins over countryCode when both hold such a
    string. *)
Theorem C6_extra_fields (seller_obj extra : dict) (pre post : list str) (k v : str) :
  explicit_loop direct_keys seller_obj = None ->
  address_loop seller_obj = None ->
  dict_get seller_obj "extra" = VDict extra ->
  ["country"; "countryCode"; "establishedCountry"] = pre ++ k :: post ->
  (forall k', In k' pre -> forall s, dict_get extra k' = VStr s -> strip s = []) ->
  dict_get extra k = VStr v -> strip v <> [] ->
  extract_country_from_seller seller_obj = Some (upper (strip v)).
Proof.
  intros H1 H2 He Hkeys Hpre Hk Hv. unfold extract_country_from_seller.
  rewrite H1, H2, He.
  exact (explicit_loop_first extra_keys pre post k v extra Hkeys Hpre Hk Hv).
Qed.

Lemma C6_witness :
  extract_country_from_seller [("extra", VDict [("countryCode", VStr "gb")])] = Some "GB" /\
  extract_country_from_seller
    [("extra", VDict [("countryCode", VStr "fr"); ("country", VStr " gb ")])] = Some "GB".
Proof.
  split.
  - apply (C6_extra_fields [("extra", VDict [("countryCode", VStr "gb")])]
             [("countryCode", VStr "gb")] ["country"] ["establishedCountry"]
             "countryCode" "gb"); try reflexivity.
    + intros k' [<- | []] s H; discriminate H.
    + discriminate.
  - apply (C6_extra_fields
             [("extra", VDict [("countryCode", VStr "fr"); ("country", VStr " gb ")])]
             [("countryCode", VStr "fr"); ("country", VStr " gb ")]
             [] ["countryCode"; "establishedCountry"] "country" " gb "); try reflexivity.
    + intros k' [].
    + discriminate.
Defined.

(** * The run *)

Lemma subseq_app {A : Type} (a1 b1 a2 b2 : list A) :
  subseq a1 b1 -> subseq a2 b2 -> subseq (a1 ++ a2) (b1 ++ b2).
Proof.
  intros H1 H2. induction H1; simpl; [exact H2 | |]; constructor; assumption.
Qed.

Lemma subseq_empty {A : Type} (b : list A) : subseq [] b.
Proof. induction b; constructor; assumption. Qed.

Lemma subseq_In {A : Type} (a b : list A) (x : A) : subseq a b -> In x a -> In x b.
Proof.
  intros H. induction H; simpl; [tauto | |]; intros Hin; [right; auto|].
  destruct Hin; [left | right]; auto.
Qed.

Lemma str_eqb_eq (a b : str) : str_eqb a b = true <-> a = b.
Proof.
  unfold str_eqb. destruct (list_eq_dec ascii_dec a b); split; congruence.
Qed.

Lemma in_target_some (country : option str) :
  in_target country = true ->
  exists c, country = Some c /\ (c = "GB" \/ c = "UK").
Proof.
  destruct country as [c|]; simpl; [|discriminate].
  intros H. exists c. split; [reflexivity|].
  apply orb_prop in H. destruct H as [H | H]; apply str_eqb_eq in H; auto.
Qed.

Lemma effect_ret {A : Type} (a : A) (st : state) : effect (ret a) st (Ok a) [] [].
Proof. unfold effect. simpl. rewrite !app_nil_r. auto. Qed.

Lemma effect_raise {A : Type} (e : exn) (st : state) :
  effect (raise e : M A) st (Raised e) [] [].
Proof. unfold effect. simpl. rewrite !app_nil_r. auto. Qed.

Lemma effect_emit (ev : event) (st : state) : effect (emit ev) st (Ok tt) [] [ev].
Proof. unfold effect. simpl. rewrite app_nil_r. auto. Qed.

Lemma effect_append_row (r : OutputRow) (st : state) :
  effect (append_row r) st (Ok tt) [r] [].
Proof. unfold effect. simpl. rewrite app_nil_r. auto. Qed.

Lemma effect_get_rows (st : state) : effect get_rows st (Ok (rows st)) [] [].
Proof. unfold effect. simpl. rewrite !app_nil_r. auto. Qed.

Lemma effect_bind {A B : Type} (m : M A) (f : A -> M B) (st : state)
    (a : A) (o : outcome B) (R1 R2 : list OutputRow) (L1 L2 : list event) :
  effect m st (Ok a) R1 L1 -> effect (f a) (snd (m st)) o R2 L2 ->
  effect (bind m f) st o (R1 ++ R2) (L1 ++ L2).
Proof.
  unfold effect, bind. destruct (m st) as [o1 st1]. simpl.
  intros [-> [Hr1 Hl1]] [Ho [Hr2 Hl2]].
  rewrite Ho, Hr2, Hl2, Hr1, Hl1, !app_assoc. auto.
Qed.

Lemma effect_bind_raised {A B : Type} (m : M A) (f : A -> M B) (st : state)
    (e : exn) (R : list OutputRow) (L : list event) :
  effect m st (Raised e) R L -> effect (bind m f) st (Raised e) R L.
Proof.
  unfold effect, bind. destruct (m st) as [o1 st1]. simpl.
  intros [-> [Hr Hl]]. simpl. auto.
Qed.

Lemma effect_try_ok (body : M unit) (handler : str -> M unit) (st : state)
    (R : list OutputRow) (L : list event) :
  effect body st (Ok tt) R L -> effect (try_except body handler) st (Ok tt) R L.
Proof.
  unfold effect, try_except. destruct (body st) as [o1 st1]. simpl.
  intros [-> [Hr Hl]]. simpl. auto.
Qed.

Lemma effect_try_caught (body : M unit) (handler : str -> M unit) (st : state)
    (msg : str) (o : outcome unit) (R1 R2 : list OutputRow) (L1 L2 : list event) :
  effect body st (Raised (Exception msg)) R1 L1 ->
  effect (handler msg) (snd (body st)) o R2 L2 ->
  effect (try_except body handler) st o (R1 ++ R2) (L1 ++ L2).
Proof.
  unfold effect, try_except. destruct (body st) as [o1 st1]. simpl.
  intros [-> [Hr1 Hl1]] [Ho [Hr2 Hl2]].
  rewrite Ho, Hr2, Hl2, Hr1, Hl1, !app_assoc. auto.
Qed.

Lemma effect_bind_ret {A B : Type} (a : A) (f : A -> M B) (st : state)
    (o : outcome B) (R : list OutputRow) (L : list event) :
  effect (f a) st o R L -> effect (bind (ret a) f) st o R L.
Proof. intros H. exact H. Qed.

(** The body of the inner loop either fails at once on a [data] that is no
    dict, or goes on, having appended at most the row of [sid]. *)
Lemma sid_body_effect (data : value) (sid : str) (st : state) :
  exists o R, effect (sid_body data sid) st o R [] /\
              subseq (map sellerId R) [sid] /\ Forall (row_of_data data) R /\ no_exit o.
Proof.
  assert (Hskip : forall m : M unit, m = ret tt -> exists o R, effect m st o R [] /\
              subseq (map sellerId R) [sid] /\ Forall (row_of_data data) R /\ no_exit o).
  { intros m ->. exists (Ok tt), []. split; [apply effect_ret|].
    split; [apply subseq_empty|]. split; [constructor | left; reflexivity]. }
  unfold sid_body.
  destruct data as [| | | | | |d];
    try (eexists (Raised (Exception _)), []; split;
         [apply effect_bind_raised, effect_raise|];
         split; [apply subseq_empty|]; split; [constructor | right; eauto]).
  unfold data_get.
  destruct (dict_get d sid) as [| | | | | |sd] eqn:Hd;
    try (destruct (Hskip (ret tt) eq_refl) as [o [R H]]; exists o, R;
         split; [apply effect_bind_ret; apply H | apply H]).
  destruct (in_target (extract_country_from_seller sd)) eqn:Ht.
  - destruct (in_target_some _ Ht) as [c [Hc Hgb]].
    exists (Ok tt), [make_row sid sd c].
    split; [apply effect_bind_ret; cbv zeta; rewrite Ht, Hc; apply effect_append_row|].
    split; [simpl; apply subseq_take, subseq_nil|]. split; [|left; reflexivity].
    constructor; [|constructor]. exists d, sd, c. simpl. auto.
  - destruct (Hskip (ret tt) eq_refl) as [o [R H]]. exists o, R.
    split; [apply effect_bind_ret; cbv zeta; rewrite Ht; apply H | apply H].
Qed.

Lemma sids_effect (data : value) (batch : list str) :
  forall st, exists o R, effect (for_each batch (sid_body data)) st o R [] /\
                         subseq (map sellerId R) batch /\ Forall (row_of_data data) R /\ no_exit o.
Proof.
  induction batch as [|sid batch IH]; intros st.
  - exists (Ok tt), []. split; [apply effect_ret|].
    split; [constructor|]. split; [constructor | left; reflexivity].
  - destruct (sid_body_effect data sid st) as [o1 [R1 [E1 [S1 [B1 [-> | [msg ->]]]]]]].
    + destruct (IH (snd (sid_body data sid st))) as [o2 [R2 [E2 [S2 [B2 N2]]]]].
      exists o2, (R1 ++ R2). split; [exact (effect_bind _ _ _ _ _ _ _ _ _ E1 E2)|].
      split; [|split; [apply Forall_app; auto | exact N2]].
      rewrite map_app. exact (subseq_app _ _ _ _ S1 S2).
    + exists (Raised (Exception msg)), R1.
      split; [apply effect_bind_raised, E1|].
      split; [|split; [exact B1 | right; eauto]].
      rewrite <- (app_nil_r (map sellerId R1)).
      exact (subseq_app _ _ _ _ S1 (subseq_empty batch)).
Qed.

Lemma queried_app (a b : list event) : queried (a ++ b) = queried a ++ queried b.
Proof. apply flat_map_app. Qed.

Lemma csv_rows_app (a b : list event) : csv_rows (a ++ b) = csv_rows a ++ csv_rows b.
Proof. apply flat_map_app. Qed.

Section RunFacts.

Variable seller_query : list event -> list str -> response.

Lemma effect_warn (i : nat) (e : str) (st : state) :
  effect (emit (Print (warn_msg i e)) ;; emit (Sleep 2)) st (Ok tt) []
         [Print (warn_msg i e); Sleep 2].
Proof.
  exact (effect_bind _ _ _ _ _ _ _ _ _ (effect_emit _ st) (effect_emit _ _)).
Qed.

Lemma effect_call_fails (batch : list str) (e : str) (st : state) :
  seller_query (log st) batch = Fails e ->
  effect (call_seller_query seller_query batch) st (Raised (Exception e)) []
         [SellerQuery batch].
Proof.
  intros H. unfold effect, call_seller_query. rewrite H. simpl.
  rewrite app_nil_r. auto.
Qed.

Lemma effect_call_returns (batch : list str) (data : value) (st : state) :
  seller_query (log st) batch = Returns data ->
  effect (call_seller_query seller_query batch) st (Ok data) [] [SellerQuery batch].
Proof.
  intros H. unfold effect, call_seller_query. rewrite H. simpl.
  rewrite app_nil_r. auto.
Qed.

(** One batch: the query is logged, rows of this batch are appended, a
    failure is caught and answered by the warning and the pause. *)
Lemma batch_body_effect (seller_ids : list str) (i : nat) (st : state) :
  exists R L,
    effect (batch_body seller_query seller_ids i) st (Ok tt) R
           (SellerQuery (slice seller_ids i (i + BATCH)) :: L) /\
    subseq (map sellerId R) (slice seller_ids i (i + BATCH)) /\
    Forall (row_answered seller_query) R /\
    (L = [] \/ exists e, L = [Print (warn_msg i e); Sleep 2]).
Proof.
  unfold batch_body. set (batch := slice seller_ids i (i + BATCH)).
  destruct (seller_query (log st) batch) as [e | data] eqn:Hq.
  - exists [], [Print (warn_msg i e); Sleep 2].
    split; [|split; [apply subseq_empty | split; [constructor | right; eauto]]].
    apply (effect_try_caught _ _ st e (Ok tt) [] [] [SellerQuery batch]).
    + apply effect_bind_raised, effect_call_fails, Hq.
    + apply effect_warn.
  - pose proof (effect_call_returns batch data st Hq) as Ec.
    destruct (sids_effect data batch (snd (call_seller_query seller_query batch st)))
      as [o [R [Es [Hs [Hb [-> | [msg ->]]]]]]].
    + assert (Ha : Forall (row_answered seller_query) R).
      { revert Hb. apply Forall_impl. intros r Hr. exists (log st), batch, data. auto. }
      exists R, []. split; [|auto].
      apply effect_try_ok.
      exact (effect_bind _ _ _ _ _ _ _ _ _ Ec Es).
    + assert (Ha : Forall (row_answered seller_query) R).
      { revert Hb. apply Forall_impl. intros r Hr. exists (log st), batch, data. auto. }
      exists R, [Print (warn_msg i msg); Sleep 2].
      split; [|split; [exact Hs | split; [exact Ha | right; eauto]]].
      pose proof (effect_bind (call_seller_query seller_query batch)
                    (fun d => for_each batch (sid_body d)) st data _ _ _ _ _ Ec Es) as Eb.
      simpl in Eb.
      rewrite <- (app_nil_r R).
      apply (effect_try_caught _ _ st msg (Ok tt) R [] [SellerQuery batch]);
        [exact Eb | apply effect_warn].
Qed.

Lemma batches_effect (seller_ids : list str) (idx : list nat) :
  forall st, exists R L,
    effect (for_each idx (batch_body seller_query seller_ids)) st (Ok tt) R L /\
    subseq (map sellerId R) (concat (map (chunk_of seller_ids) idx)) /\
    Forall (row_answered seller_query) R /\
    queried L = map (chunk_of seller_ids) idx /\ csv_rows L = [].
Proof.
  induction idx as [|i idx IH]; intros st.
  - exists [], []. split; [apply effect_ret|]. repeat split; constructor.
  - destruct (batch_body_effect seller_ids i st) as [R1 [L1 [E1 [S1 [B1 HL]]]]].
    destruct (IH (snd (batch_body seller_query seller_ids i st)))
      as [R2 [L2 [E2 [S2 [B2 [Q2 C2]]]]]].
    exists (R1 ++ R2), ((SellerQuery (chunk_of seller_ids i) :: L1) ++ L2).
    split; [exact (effect_bind _ _ _ _ _ _ _ _ _ E1 E2)|].
    split; [rewrite map_app; exact (subseq_app _ _ _ _ S1 S2)|].
    split; [apply Forall_app; auto|].
    rewrite queried_app, csv_rows_app, Q2, C2.
    destruct HL as [-> | [e ->]]; split; reflexivity.
Qed.

End RunFacts.

(** ** The batches cover the identifiers *)

Lemma slice_step {A : Type} (l : list A) (i step : nat) :
  slice l i (i + step) = firstn step (skipn i l).
Proof. unfold slice. replace (i + step - i) with step by lia. reflexivity. Qed.

Lemma range_from_slices {A : Type} (l : list A) (step : nat) :
  1 <= step ->
  forall fuel start, length l - start <= fuel ->
    concat (map (fun i => slice l i (i + step)) (range_from fuel start (length l) step))
    = skipn start l.
Proof.
  intros Hstep. induction fuel as [|fuel IH]; intros start Hfuel.
  - simpl. rewrite skipn_all2 by lia. reflexivity.
  - cbn [range_from]. destruct (Nat.ltb_spec start (length l)) as [Hlt | Hge].
    + cbn [map concat]. rewrite IH by lia. rewrite slice_step.
      rewrite (Nat.add_comm start step), <- skipn_skipn. apply firstn_skipn.
    + simpl. rewrite skipn_all2 by lia. reflexivity.
Qed.

Lemma range_from_bound (fuel start stop step i : nat) :
  In i (range_from fuel start stop step) -> i < stop.
Proof.
  revert start. induction fuel as [|fuel IH]; intros start; cbn [range_from]; [intros []|].
  destruct (Nat.ltb_spec start stop) as [Hlt | Hge]; [|intros []].
  intros [<- | Hin]; [exact Hlt | exact (IH _ Hin)].
Qed.

Lemma chunks_cover (seller_ids : list str) :
  concat (map (chunk_of seller_ids) (range 0 (length seller_ids) BATCH)) = seller_ids.
Proof.
  unfold range, chunk_of.
  rewrite (range_from_slices seller_ids BATCH) by (unfold BATCH; lia).
  reflexivity.
Qed.

Lemma chunks_sized (seller_ids : list str) :
  Forall (fun b => 1 <= length b <= BATCH)
         (map (chunk_of seller_ids) (range 0 (length seller_ids) BATCH)).
Proof.
  apply Forall_forall. intros b Hb. apply in_map_iff in Hb.
  destruct Hb as [i [<- Hi]]. apply range_from_bound in Hi.
  unfold chunk_of. rewrite slice_step, length_firstn, length_skipn.
  unfold BATCH. lia.
Qed.

(** ** Reading the identifiers *)

Lemma nonempty_strip (s : str) : nonempty (strip s) = negb (blank s).
Proof.
  destruct (strip s) as [|c t] eqn:E.
  - rewrite (strip_empty_blank s E). reflexivity.
  - simpl. destruct (blank s) eqn:B; [|reflexivity].
    rewrite (strip_blank s B) in E. discriminate E.
Qed.

Lemma loaded_as_specified (content : str) :
  map strip (filter (fun line => nonempty (strip line)) (file_lines content))
  = spec_trimmed_nonblank_lines content.
Proof.
  unfold spec_trimmed_nonblank_lines. f_equal. apply filter_ext.
  intros line. apply nonempty_strip.
Qed.

Lemma read_seller_ids_run (input_file : option str) (st : state) :
  read_seller_ids input_file st =
  match input_file with
  | None => (Raised (SystemExit missing_msg), st)
  | Some content =>
      match spec_trimmed_nonblank_lines content with
      | [] => (Raised (SystemExit empty_msg), st)
      | id :: ids => (Ok (id :: ids), st)
      end
  end.
Proof.
  unfold read_seller_ids. destruct input_file as [content|]; [|reflexivity].
  rewrite loaded_as_specified.
  destruct (spec_trimmed_nonblank_lines content); reflexivity.
Qed.

Lemma effect_csv_rows (rs : list OutputRow) :
  forall st, effect (for_each rs (fun r => emit (CsvRow r))) st (Ok tt) [] (map CsvRow rs).
Proof.
  induction rs as [|r rs IH]; intros st; [apply effect_ret|].
  exact (effect_bind _ _ _ _ _ _ _ _ _ (effect_emit (CsvRow r) st) (IH _)).
Qed.

Lemma effect_write_csv (st : state) :
  effect write_csv st (Ok tt) [] (CsvHeader fieldnames :: map CsvRow (rows st)).
Proof.
  unfold write_csv.
  apply (effect_bind _ _ st tt (Ok tt) [] [] [CsvHeader fieldnames] (map CsvRow (rows st)));
    [apply effect_emit|].
  apply (effect_bind _ _ _ (rows st) (Ok tt) [] [] [] (map CsvRow (rows st)));
    [exact (effect_get_rows (snd (emit (CsvHeader fieldnames) st)))
    | apply effect_csv_rows].
Qed.

(** ** The whole of [main] *)

Lemma queried_written (R : list OutputRow) : queried (map CsvRow R) = [].
Proof. induction R; simpl; auto. Qed.

Lemma csv_rows_written (R : list OutputRow) : csv_rows (map CsvRow R) = R.
Proof. induction R as [|r R IH]; simpl; [reflexivity|]. f_equal. exact IH. Qed.

Section MainFacts.

Variable seller_query : list event -> list str -> response.
Variable input_file : option str.

Lemma main_unfold (st : state) :
  main seller_query input_file st =
  match read_seller_ids input_file st with
  | (Ok seller_ids, st') => after_read seller_query seller_ids st'
  | (Raised e, st') => (Raised e, st')
  end.
Proof. reflexivity. Qed.

Lemma after_read_effect (seller_ids : list str) :
  exists R L,
    effect (after_read seller_query seller_ids) initial (Ok tt) R
           (L ++ CsvHeader fieldnames :: map CsvRow R ++ [Print (done_msg R)]) /\
    subseq (map sellerId R) seller_ids /\
    Forall (row_answered seller_query) R /\
    queried L = map (chunk_of seller_ids) (range 0 (length seller_ids) BATCH) /\
    csv_rows L = [].
Proof.
  destruct (batches_effect seller_query seller_ids (range 0 (length seller_ids) BATCH) initial)
    as [R [L [E1 [S1 [B1 [Q1 C1]]]]]].
  rewrite chunks_cover in S1.
  exists R, L. split; [|auto].
  fold (query_all seller_query seller_ids) in E1.
  set (st1 := snd (query_all seller_query seller_ids initial)).
  assert (Hr : rows st1 = R) by (destruct E1 as [_ [Hr _]]; exact Hr).
  pose proof (effect_write_csv st1) as E2. rewrite Hr in E2.
  set (st2 := snd (write_csv st1)).
  assert (Hr2 : rows st2 = R).
  { destruct E2 as [_ [Hr2 _]]. fold st2 in Hr2. rewrite Hr2, Hr. apply app_nil_r. }
  pose proof (effect_get_rows st2) as E3. rewrite Hr2 in E3.
  pose proof (effect_emit (Print (done_msg R)) (snd (get_rows st2))) as E4.
  pose proof (effect_bind get_rows (fun rs => emit (Print (done_msg rs))) st2 R
                _ _ _ _ _ E3 E4) as E34.
  pose proof (effect_bind write_csv
                (fun _ => rs <- get_rows ;; emit (Print (done_msg rs))) st1 tt
                _ _ _ _ _ E2 E34) as E234.
  pose proof (effect_bind (query_all seller_query seller_ids)
                (fun _ => write_csv ;; rs <- get_rows ;; emit (Print (done_msg rs)))
                initial tt _ _ _ _ _ E1 E234) as E.
  simpl in E. rewrite !app_nil_r in E. exact E.
Qed.

(** Every run, told from its end: the rows [R], the events [L] of the
    query loop and the events [T] of the writing. *)
Lemma main_run :
  exists R L T,
    rows (snd (main seller_query input_file initial)) = R /\
    log (snd (main seller_query input_file initial)) = L ++ T /\
    subseq (map sellerId R) (input_ids input_file) /\
    Forall (row_answered seller_query) R /\
    queried L = map (chunk_of (input_ids input_file))
                    (range 0 (length (input_ids input_file)) BATCH) /\
    csv_rows L = [] /\ queried T = [] /\ csv_rows T = R /\
    (input_ids input_file <> [] -> fst (main seller_query input_file initial) = Ok tt).
Proof.
  rewrite main_unfold, read_seller_ids_run. unfold input_ids.
  destruct input_file as [content|].
  - destruct (spec_trimmed_nonblank_lines content) as [|id ids] eqn:Hids.
    + exists [], [], []. simpl. repeat split; try constructor. congruence.
    + destruct (after_read_effect (id :: ids)) as [R [L [[Ho [Hr Hl]] [S1 [B1 [Q1 C1]]]]]].
      exists R, L, (CsvHeader fieldnames :: map CsvRow R ++ [Print (done_msg R)]).
      repeat split; auto.
      * change (CsvHeader fieldnames :: map CsvRow R ++ [Print (done_msg R)])
          with ([CsvHeader fieldnames] ++ map CsvRow R ++ [Print (done_msg R)]).
        rewrite !queried_app, queried_written. reflexivity.
      * change (CsvHeader fieldnames :: map CsvRow R ++ [Print (done_msg R)])
          with ([CsvHeader fieldnames] ++ map CsvRow R ++ [Print (done_msg R)]).
        rewrite !csv_rows_app, csv_rows_written. simpl. apply app_nil_r.
  - exists [], [], []. simpl. repeat split; try constructor. congruence.
Qed.

End MainFacts.

(** * The claims about a run *)

(** C1: every row of the output collection, and so every row handed to the
    CSV writer, has establishedCountry GB or UK, and was built from a record
    the provider returned for that seller whose inferred country is that
    very value; nothing else produces a row. *)
Theorem C1_rows_gb_or_uk (seller_query : list event -> list str -> response)
    (input_file : option str) :
  let st := snd (main seller_query input_file initial) in
  csv_rows (log st) = rows st /\
  Forall (fun r =>
            (establishedCountry r = "GB" \/ establishedCountry r = "UK") /\
            exists l batch d sd,
              seller_query l batch = Returns (VDict d) /\
              dict_get d (sellerId r) = VDict sd /\
              extract_country_from_seller sd = Some (establishedCountry r))
         (rows st).
Proof.
  cbv zeta.
  destruct (main_run seller_query input_file)
    as [R [L [T [Hr [Hl [_ [Hb [_ [HcL [_ [HcT _]]]]]]]]]]].
  rewrite Hl, Hr, csv_rows_app, HcL, HcT. split; [reflexivity|].
  revert Hb. apply Forall_impl.
  intros r [l [batch [data [Hq [d [sd [c [-> [Hd [Hrow [Hc Hgb]]]]]]]]]]].
  assert (Hec : establishedCountry r = c) by (rewrite Hrow; reflexivity).
  rewrite Hec. split; [exact Hgb|]. exists l, batch, d, sd. auto.
Qed.

(** C2: when the lookup of a batch fails, the batch appends no row, the
    warning naming the batch number and the error is printed, the script
    sleeps 2, and the loop goes on with the batches that follow, which run
    to their end and leave the rows gathered so far in place. *)
Theorem C2_failed_batch (seller_query : list event -> list str -> response)
    (seller_ids : list str) (i : nat) (later : list nat) (st : state) (e : str) :
  seller_query (log st) (slice seller_ids i (i + BATCH)) = Fails e ->
  let st' :=
    mkState (rows st)
      (log st ++ [SellerQuery (slice seller_ids i (i + BATCH));
                  Print ("[warn] batch " ++ str_of_Z (Z.of_nat (i / BATCH + 1))
                         ++ " failed: " ++ e);
                  Sleep 2]) in
  batch_body seller_query seller_ids i st = (Ok tt, st') /\
  for_each (i :: later) (batch_body seller_query seller_ids) st
    = for_each later (batch_body seller_query seller_ids) st' /\
  fst (for_each later (batch_body seller_query seller_ids) st') = Ok tt /\
  exists R, rows (snd (for_each later (batch_body seller_query seller_ids) st'))
            = rows st ++ R.
Proof.
  intros Hq st'.
  assert (Hb : batch_body seller_query seller_ids i st = (Ok tt, st')).
  { unfold batch_body, try_except, bind, call_seller_query. rewrite Hq.
    unfold emit. simpl. unfold st', warn_msg. rewrite <- !app_assoc. reflexivity. }
  split; [exact Hb|]. split.
  - cbn [for_each]. unfold bind at 1. rewrite Hb. reflexivity.
  - destruct (batches_effect seller_query seller_ids later st')
      as [R [L [[Ho [Hr _]] _]]].
    split; [exact Ho|]. exists R. exact Hr.
Qed.

Lemma C2_witness :
  batch_body flaky_provider (repeat "S1" 101) 0 initial
  = (Ok tt, mkState [] [SellerQuery (repeat "S1" 100);
                        Print "[warn] batch 1 failed: timeout"; Sleep 2]) /\
  fst (for_each [100] (batch_body flaky_provider (repeat "S1" 101))
         (mkState [] [SellerQuery (repeat "S1" 100);
                      Print "[warn] batch 1 failed: timeout"; Sleep 2])) = Ok tt.
Proof.
  pose proof (C2_failed_batch flaky_provider (repeat "S1" 101) 0 [100]
                initial "timeout" eq_refl) as H.
  split; [exact (proj1 H) | exact (proj1 (proj2 (proj2 H)))].
Defined.

Example flaky_run :
  map sellerId (rows (snd (query_all flaky_provider (repeat "S1" 101) initial))) = ["S1"].
Proof. reflexivity. Qed.



Lemma loaded_ids_trimmed (content : str) :
  Forall (fun id => id <> [] /\ strip id = id) (spec_trimmed_nonblank_lines content).
Proof.
  unfold spec_trimmed_nonblank_lines. apply Forall_forall. intros id Hid.
  apply in_map_iff in Hid. destruct Hid as [line [<- Hline]].
  apply filter_In in Hline. destruct Hline as [_ Hnb].
  rewrite <- nonempty_strip in Hnb. split; [apply nonempty_true, Hnb | apply strip_idem].
Qed.

Lemma Forall_removelast_cons {A : Type} (P : A -> Prop) (x : A) (l : list A) :
  P x -> Forall P (removelast l) -> Forall P (removelast (x :: l)).
Proof.
  intros Hx Hl. destruct l as [|y l]; [constructor|].
  change (removelast (x :: y :: l)) with (x :: removelast (y :: l)).
  constructor; assumption.
Qed.

(** What iterating the file gives, said without [lines_from]: the lines
    put end to end are the text with its newlines made LF, every line is a
    text free of LF and CR ended by LF (the last one may lack the end, and
    is then not empty), and only the last one may lack it. *)
Lemma lines_from_facts (n : nat) :
  forall s, length s <= n ->
  forall cur, ~ In LF cur -> ~ In CR cur ->
    concat (lines_from cur s) = cur ++ spec_universal_newlines s /\
    Forall spec_line (lines_from cur s) /\
    Forall (fun line => exists body, line = body ++ [LF]) (removelast (lines_from cur s)).
Proof.
  induction n as [|n IH]; intros s Hn cur Hlf Hcr.
  - destruct s; [|simpl in Hn; lia]. simpl. rewrite app_nil_r.
    destruct cur as [|c cur]; simpl; [repeat split; constructor|].
    rewrite app_nil_r. split; [reflexivity|]. split; [|constructor].
    constructor; [|constructor]. exists (c :: cur). split; [exact Hlf|].
    split; [exact Hcr|]. right. split; [reflexivity | discriminate].
  - destruct s as [|c s].
    { simpl. rewrite app_nil_r.
      destruct cur as [|c cur]; simpl; [repeat split; constructor|].
      rewrite app_nil_r. split; [reflexivity|]. split; [|constructor].
      constructor; [|constructor]. exists (c :: cur). split; [exact Hlf|].
      split; [exact Hcr|]. right. split; [reflexivity | discriminate]. }
    simpl in Hn.
    assert (Hline : spec_line (cur ++ [LF])).
    { exists cur. split; [exact Hlf|]. split; [exact Hcr|]. left. reflexivity. }
    assert (Hend : exists body, cur ++ [LF] = body ++ [LF]) by (exists cur; reflexivity).
    assert (Hnil : ~ In LF (@nil ascii) /\ ~ In CR (@nil ascii)) by (split; intros []).
    destruct Hnil as [Hn1 Hn2].
    cbn [lines_from spec_universal_newlines].
    destruct (Ascii.eqb_spec c LF) as [-> | HcLF].
    + change (Ascii.eqb LF CR) with false. cbv iota.
      destruct (IH s ltac:(lia) [] Hn1 Hn2) as [Hc [Hs Ht]].
      cbn [concat]. rewrite Hc. simpl. rewrite <- app_assoc.
      split; [reflexivity|]. split; [constructor; assumption|].
      apply Forall_removelast_cons; assumption.
    + destruct (Ascii.eqb_spec c CR) as [-> | HcCR].
      * destruct s as [|c2 s].
        { simpl. rewrite app_nil_r. split; [reflexivity|].
          split; [constructor; [exact Hline | constructor] | constructor]. }
        destruct (Ascii.eqb_spec c2 LF) as [-> | Hc2].
        -- simpl in Hn. destruct (IH s ltac:(lia) [] Hn1 Hn2) as [Hc [Hs Ht]].
           cbn [concat]. rewrite Hc. simpl. rewrite <- app_assoc.
           split; [reflexivity|]. split; [constructor; assumption|].
           apply Forall_removelast_cons; assumption.
        -- destruct (IH (c2 :: s) ltac:(lia) [] Hn1 Hn2) as [Hc [Hs Ht]].
           cbn [concat]. rewrite Hc. simpl app at 2. rewrite <- app_assoc.
           split; [reflexivity|]. split; [constructor; assumption|].
           apply Forall_removelast_cons; assumption.
      * assert (H1 : ~ In LF (cur ++ [c])).
        { intros H. apply in_app_or in H. destruct H as [H | [H | []]]; auto. }
        assert (H2 : ~ In CR (cur ++ [c])).
        { intros H. apply in_app_or in H. destruct H as [H | [H | []]]; auto. }
        destruct (IH s ltac:(lia) (cur ++ [c]) H1 H2) as [Hc [Hs Ht]].
        rewrite Hc, <- app_assoc. auto.
Qed.

Lemma file_lines_facts (content : str) :
  concat (file_lines content) = spec_universal_newlines content /\
  Forall spec_line (file_lines content) /\
  Forall (fun line => exists body, line = body ++ [LF]) (removelast (file_lines content)).
Proof.
  apply (lines_from_facts (length content) content (le_n _) []); intros [].
Qed.

Lemma loaded_spec (lines : list str) :
  spec_loaded lines (map strip (filter (fun line => negb (blank line)) lines)).
Proof.
  induction lines as [|line lines IH]; [constructor|].
  cbn [filter]. destruct (blank line) eqn:Hb; cbn [negb map].
  - apply loaded_blank; [apply blank_spec, Hb | exact IH].
  - apply loaded_id; [| | exact IH].
    + destruct (strip_decomp line) as [w1 [w2 [H1 [H2 Hd]]]].
      exists w1, w2. split; [exact Hd|].
      split; [apply blank_spec, H1|]. split; [apply blank_spec, H2|].
      apply trimmed_edges, strip_idem.
    + apply nonempty_true. rewrite nonempty_strip, Hb. reflexivity.
Qed.

(** C8: the loader turns the text of the file into its lines that are not
    blank, each trimmed, in file order and with repetitions kept; the
    process exits with the message about the missing file when there is no
    file, with the message about the missing identifiers when no line is
    left, and in no other case.  What a line is and what trimming does is
    said a second time without the functions of the loader: the lines put
    end to end are the text of the file, each is free of newlines but for
    its end, and each line that is not all whitespace gives, in order, the
    text between its first and its last character that is no whitespace. *)
Theorem C8_input_loader (seller_query : list event -> list str -> response)
    (input_file : option str) (st : state) :
  read_seller_ids input_file st =
    match input_file with
    | None =>
        (Raised (SystemExit "Missing seller_ids.txt. Create it with one seller ID per line."),
         st)
    | Some content =>
        match map strip (filter (fun line => negb (forallb isspace line))
                                (file_lines content)) with
        | [] => (Raised (SystemExit "seller_ids.txt has no seller IDs. Add at least one."), st)
        | id :: ids => (Ok (id :: ids), st)
        end
    end /\
  Forall (fun id => id <> [] /\ strip id = id) (input_ids input_file) /\
  ((exists msg, fst (main seller_query input_file initial) = Raised (SystemExit msg))
   <-> input_file = None \/
       exists content, input_file = Some content /\
                       spec_trimmed_nonblank_lines content = []) /\
  (forall content,
      concat (file_lines content) = spec_universal_newlines content /\
      Forall (fun line =>
                exists body, ~ In LF body /\ ~ In CR body /\
                             (line = body ++ [LF] \/ (line = body /\ body <> [])))
             (file_lines content) /\
      Forall (fun line => exists body, line = body ++ [LF])
             (removelast (file_lines content)) /\
      spec_loaded (file_lines content)
                  (map strip (filter (fun line => negb (forallb isspace line))
                                     (file_lines content)))).
Proof.
  split; [apply read_seller_ids_run|]. split.
  { destruct input_file as [content|]; [apply loaded_ids_trimmed | constructor]. }
  split.
  - split.
    + intros [msg Hm].
      destruct (main_run seller_query input_file) as [_ [_ [_ [_ [_ [_ [_ [_ [_ [_ [_ Hok]]]]]]]]]]].
      destruct input_file as [content|]; [right | left; reflexivity].
      exists content. split; [reflexivity|].
      destruct (spec_trimmed_nonblank_lines content) as [|id ids] eqn:Hids; [reflexivity|].
      simpl in Hok. rewrite Hids in Hok. rewrite Hok in Hm by discriminate. discriminate Hm.
    + rewrite main_unfold, read_seller_ids_run.
      intros [-> | [content [-> ->]]]; simpl; eauto.
  - intros content. destruct (file_lines_facts content) as [Hc [Hs Ht]].
    split; [exact Hc|]. split; [exact Hs|]. split; [exact Ht|].
    apply loaded_spec.
Qed.

Lemma C8_witness :
  read_seller_ids (Some sample_file) initial
  = (Ok ["A1"; "B2"; "C3"; "A1"; "D4"], initial).
Proof.
  exact (proj1 (C8_input_loader (fun _ _ => Fails []) (Some sample_file) initial)).
Defined.

(** C9: the sellerId values of the rows are taken from the identifiers of
    the input, in the order of the input; the identifiers are queried in
    consecutive batches which, put end to end, are the input, each of at
    least one and at most 100 identifiers. *)
Theorem C9_rows_follow_input (seller_query : list event -> list str -> response)
    (input_file : option str) :
  let st := snd (main seller_query input_file initial) in
  let seller_ids := input_ids input_file in
  subseq (map sellerId (rows st)) seller_ids /\
  incl (map sellerId (rows st)) seller_ids /\
  concat (queried (log st)) = seller_ids /\
  Forall (fun batch => 1 <= length batch <= 100) (queried (log st)).
Proof.
  cbv zeta.
  destruct (main_run seller_query input_file)
    as [R [L [T [Hr [Hl [Hs [_ [HqL [_ [HqT _]]]]]]]]]].
  rewrite Hr, Hl, queried_app, HqT, app_nil_r, HqL.
  split; [exact Hs|]. split; [intros sid; apply subseq_In, Hs|].
  split; [apply chunks_cover | apply chunks_sized].
Qed.

(** * The embedding on concrete inputs *)

Example file_lines_sample :
  file_lines sample_file =
  [" A1 " ++ [LF]; [LF]; "B2" ++ [LF]; "C3" ++ [LF]; " " ++ [TAB] ++ " " ++ [LF];
   "A1" ++ [LF]; [FF] ++ "D4" ++ [FS]].
Proof. reflexivity. Qed.

Example input_ids_sample : input_ids (Some sample_file) = ["A1"; "B2"; "C3"; "A1"; "D4"].
Proof. reflexivity. Qed.

Example strip_sample : strip ("  " ++ [FS] ++ " GB " ++ ["031"%char]) = "GB".
Proof. reflexivity. Qed.

Example split_sample : split "," "a,b , Gb" = ["a"; "b "; " Gb"].
Proof. reflexivity. Qed.

Example split_trailing : split "," "x," = ["x"; ""].
Proof. reflexivity. Qed.

Example py_str_sample :
  py_str (VList [VInt 1; VStr "a"; VNone; VBool true;
                 VDict [("k", VList [VFloat "2.5"; VStr "x'y"])]; VInt (-7)])
  = "[1, 'a', None, True, {'k': [2.5, " ++ [DQUOTE] ++ "x'y" ++ [DQUOTE] ++ "]}, -7]".
Proof. reflexivity. Qed.

Example repr_str_escapes :
  repr_str ("tab" ++ [TAB] ++ "a\b" ++ ["001"%char; "127"%char]) = "'tab\ta\\b\x01\x7f'".
Proof. reflexivity. Qed.

Example re_uk_inside_words : Re.search re_uk true "Reunited  Kingdoms" = true.
Proof. reflexivity. Qed.

Example re_uk_duke : Re.search re_uk true "Duke" = false.
Proof. reflexivity. Qed.

Example re_uk_hyphen : Re.search re_uk true "a-uk" = true.
Proof. reflexivity. Qed.

Example re_uk_underscore : Re.search re_uk true "a_uk" = false.
Proof. reflexivity. Qed.

Example re_uk_digit : Re.search re_uk true "UK1" = false.
Proof. reflexivity. Qed.

Example re_uk_no_gap : Re.search re_uk true "GreatBritain" = false.
Proof. reflexivity. Qed.

Example range_sample : range 0 250 BATCH = [0; 100; 200] /\ range 0 200 BATCH = [0; 100].
Proof. split; reflexivity. Qed.

Example amazon_seller_url_sample :
  amazon_seller_url "A1B2C3" "DE" = "https://www.amazon.de/sp?seller=A1B2C3" /\
  amazon_seller_url "A1B2C3" "FR" = "https://www.amazon.de/sp?seller=A1B2C3".
Proof. split; reflexivity. Qed.

(** A run over two sellers whose answer is no dict: the failure of
    [data.get] is caught like a failure of the query. *)
Example run_on_none :
  main (fun _ _ => Returns VNone) (Some "A1") initial
  = (Ok tt,
     mkState []
       [SellerQuery ["A1"];
        Print "[warn] batch 1 failed: 'NoneType' object has no attribute 'get'";
        Sleep 2;
        CsvHeader fieldnames;
        Print "Done. Wrote 0 GB/UK sellers to gb_sellers_in_de.csv"]).
Proof. reflexivity. Qed.

Example run_on_two_sellers :
  rows (snd (main (fun _ _ => Returns (VDict [("A1", VDict [("country", VStr "fr")]);
                                              ("B2", VDict [("address", VStr "1 Main St, uk");
                                                            ("sellerName", VStr " Shop ")])]))
                  (Some ("A1" ++ [LF] ++ "B2" ++ [LF] ++ "C3")) initial))
  = [mkRow "B2" "Shop" "UK" "https://www.amazon.de/sp?seller=B2"
       "https://keepa.com/#!seller/DE/B2"].
Proof. reflexivity. Qed.

(** * Further properties: the URL builders *)

Lemma str_eqb_false (a b : str) : a <> b -> str_eqb a b = false.
Proof. unfold str_eqb. destruct (list_eq_dec ascii_dec a b); congruence. Qed.

(** X1: the Amazon URL is the one of the German site for every domain code but
    GB and US, known or not, and for no other. *)
Theorem amazon_seller_url_de (seller_id domain : str) :
  amazon_seller_url seller_id domain = "https://www.amazon.de/sp?seller=" ++ seller_id
  <-> domain <> "GB" /\ domain <> "US".
Proof.
  unfold amazon_seller_url, lookup. split.
  - intros H. split; intros ->; discriminate H.
  - intros [Hgb Hus].
    rewrite (str_eqb_false domain "GB" Hgb), (str_eqb_false domain "US" Hus).
    destruct (str_eqb domain "DE"); reflexivity.
Qed.

(** X2: for one domain code, two sellers have the same Amazon URL, or the same
    Keepa URL, only when they are the same seller. *)
Theorem seller_urls_injective (a b domain : str) :
  (amazon_seller_url a domain = amazon_seller_url b domain <-> a = b) /\
  (keepa_seller_url a domain = keepa_seller_url b domain <-> a = b).
Proof.
  split; split; try (intros ->; reflexivity).
  - unfold amazon_seller_url. intros H.
    apply app_inv_head in H. apply app_inv_head in H. apply app_inv_head in H. exact H.
  - unfold keepa_seller_url. intros H.
    apply app_inv_head in H. apply app_inv_head in H. apply app_inv_head in H. exact H.
Qed.

(** X3: every row of a run carries the URLs of its own seller on the German
    site: the domain code is DE throughout. *)
Theorem rows_carry_de_urls (seller_query : list event -> list str -> response)
    (input_file : option str) :
  Forall (fun r =>
            amazonUrl r = "https://www.amazon.de/sp?seller=" ++ sellerId r /\
            keepaUrl r = "https://keepa.com/#!seller/DE/" ++ sellerId r)
         (rows (snd (main seller_query input_file initial))).
Proof.
  destruct (main_run seller_query input_file) as [R [L [T [Hr [_ [_ [Hb _]]]]]]].
  rewrite Hr. revert Hb. apply Forall_impl.
  intros r [l [batch [data [_ [d [sd [c [_ [_ [Hrow _]]]]]]]]]].
  rewrite Hrow. split; reflexivity.
Qed.

(** * Further properties: country inference *)

Lemma isalpha_upper_char (c : ascii) :
  isalpha c = true -> in_range "A" "Z" (upper_char c) = true.
Proof. all_chars c; simpl; intros H; try reflexivity; discriminate H. Qed.

Lemma two_letters_upper_code (s : str) : two_letters s -> upper_code (upper s).
Proof.
  intros [a [b [-> [Ha Hb]]]]. exists (upper_char a), (upper_char b).
  split; [reflexivity|]. split; apply isalpha_upper_char; assumption.
Qed.

Lemma address_field_upper_code (v : value) (c : str) :
  address_field v = Some c -> upper_code c.
Proof.
  destruct v as [| | | |s|l|]; try discriminate.
  - simpl. destruct (nonempty (strip s)); [|discriminate].
    destruct (Re.fullmatch re_padded_two_letters false _) eqn:Hfm.
    + intros H. injection H as <-.
      apply two_letters_upper_code, fullmatch_padded_two_letters, Hfm.
    + destruct (Re.search re_uk true s); [|discriminate].
      intros H. injection H as <-. exists "G"%char, "B"%char. repeat split.
  - destruct l as [|x l]; [discriminate|]. unfold address_field.
    set (item := strip (py_str (last (x :: l) VNone))).
    destruct (Re.fullmatch re_two_letters false item) eqn:Hfm.
    + intros H. injection H as <-.
      apply two_letters_upper_code, fullmatch_two_letters, Hfm.
    + destruct (Re.search re_uk true item); [|discriminate].
      intros H. injection H as <-. exists "G"%char, "B"%char. repeat split.
Qed.



(** X5: what step 2 returns is always a code of two upper-case letters,
    whichever address field and whichever of its branches decides. *)
Theorem address_step_gives_code (seller_obj : dict) (c : str) :
  explicit_loop direct_keys seller_obj = None ->
  address_loop seller_obj = Some c ->
  extract_country_from_seller seller_obj = Some c /\
  exists a b, c = [a; b] /\ in_range "A" "Z" a = true /\ in_range "A" "Z" b = true.
Proof.
  intros H1 H2. unfold extract_country_from_seller. rewrite H1, H2.
  split; [reflexivity|]. unfold address_loop in H2.
  apply for_return_some in H2. destruct H2 as [_ [k [_ [_ [H _]]]]].
  exact (address_field_upper_code _ _ H).
Qed.

Lemma address_step_gives_code_witness :
  extract_country_from_seller [("sellerAddress", VStr "12 rue de la Paix, Paris, fr ")]
    = Some "FR" /\
  exists a b, "FR" = [a; b] /\ in_range "A" "Z" a = true /\ in_range "A" "Z" b = true.
Proof.
  exact (address_step_gives_code
           [("sellerAddress", VStr "12 rue de la Paix, Paris, fr ")] "FR" eq_refl eq_refl).
Defined.

Lemma address_field_unusable (v : value) :
  (forall s, v = VStr s -> strip s = []) -> (forall l, v = VList l -> l = []) ->
  address_field v = None.
Proof.
  intros Hs Hl. destruct v as [| | | |s|l|]; try reflexivity.
  - simpl. rewrite (Hs s eq_refl). reflexivity.
  - rewrite (Hl l eq_refl). reflexivity.
Qed.

Lemma explicit_loop_unusable (keys : list str) (d : dict) :
  (forall k, In k keys -> forall s, dict_get d k = VStr s -> strip s = []) ->
  explicit_loop keys d = None.
Proof.
  intros H. unfold explicit_loop. apply for_return_none.
  intros k Hk. apply explicit_field_blank. exact (H k Hk).
Qed.

(** X6: a record in which no field read by the inference is usable gives no
    country: under the explicit keys nothing but absent values, values that
    are no string and blank strings; under the address keys the same or an
    empty list; and under extra no dict, or a dict with nothing usable
    under its three keys. *)
Theorem unusable_fields_undetermined (seller_obj : dict) :
  (forall k, In k direct_keys ->
             forall s, dict_get seller_obj k = VStr s -> strip s = []) ->
  (forall k, In k candidate_keys ->
             (forall s, dict_get seller_obj k = VStr s -> strip s = []) /\
             (forall l, dict_get seller_obj k = VList l -> l = [])) ->
  (forall extra, dict_get seller_obj "extra" = VDict extra ->
                 forall k, In k extra_keys ->
                           forall s, dict_get extra k = VStr s -> strip s = []) ->
  extract_country_from_seller seller_obj = None.
Proof.
  intros H1 H2 H3. unfold extract_country_from_seller.
  rewrite (explicit_loop_unusable direct_keys seller_obj H1).
  assert (Ha : address_loop seller_obj = None).
  { unfold address_loop. apply for_return_none. intros k Hk.
    destruct (H2 k Hk) as [Hs Hl]. apply address_field_unusable; assumption. }
  rewrite Ha.
  destruct (dict_get seller_obj "extra") as [| | | | | |extra] eqn:He; try reflexivity.
  apply explicit_loop_unusable. exact (H3 extra eq_refl).
Qed.

Lemma unusable_fields_undetermined_witness :
  extract_country_from_seller
    [("country", VInt 44); ("countryCode", VStr "  "); ("businessAddress", VList []);
     ("address", VNone); ("extra", VDict [("country", VStr "")]);
     ("sellerName", VStr "GB Trading Ltd")] = None.
Proof.
  apply unusable_fields_undetermined.
  - intros k [<- | [<- | [<- | []]]] s H; try discriminate H.
    injection H as <-. reflexivity.
  - intros k [<- | [<- | [<- | [<- | [<- | []]]]]]; split; intros s H;
      try discriminate H. injection H as <-. reflexivity.
  - intros extra H. injection H as <-.
    intros k [<- | [<- | [<- | []]]] s H; try discriminate H.
    injection H as <-. reflexivity.
Defined.

Lemma for_return_ext {K R : Type} (ks : list K) (f g : K -> option R) :
  (forall k, In k ks -> f k = g k) -> for_return ks f = for_return ks g.
Proof.
  induction ks as [|k ks IH]; intros H; simpl; [reflexivity|].
  rewrite (H k) by (left; reflexivity). rewrite IH; [reflexivity|].
  intros k' Hk'. apply H. right. exact Hk'.
Qed.

(** X7: the inferred country depends on nothing but what the record holds
    under the three explicit keys, the five address keys and extra: two
    records that agree there get the same result, whatever else they hold
    and in whatever order. *)
Theorem inference_reads_only_its_keys (d1 d2 : dict) :
  (forall k, In k (direct_keys ++ candidate_keys ++ ["extra"]) ->
             dict_get d1 k = dict_get d2 k) ->
  extract_country_from_seller d1 = extract_country_from_seller d2.
Proof.
  intros H. unfold extract_country_from_seller, explicit_loop, address_loop.
  rewrite (for_return_ext direct_keys _ (fun k => explicit_field (dict_get d2 k))).
  - rewrite (for_return_ext candidate_keys _ (fun k => address_field (dict_get d2 k))).
    + rewrite (H "extra"); [reflexivity|]. apply in_or_app. right.
      apply in_or_app. right. left. reflexivity.
    + intros k Hk. rewrite (H k); [reflexivity|]. apply in_or_app. right.
      apply in_or_app. left. exact Hk.
  - intros k Hk. rewrite (H k); [reflexivity|]. apply in_or_app. left. exact Hk.
Qed.

Lemma inference_reads_only_its_keys_witness :
  extract_country_from_seller
    [("sellerName", VStr "Duke of UK"); ("address", VStr "1 Rd, de"); ("rating", VInt 5)]
  = extract_country_from_seller [("address", VStr "1 Rd, de")].
Proof.
  apply inference_reads_only_its_keys.
  intros k [<- | [<- | [<- | [<- | [<- | [<- | [<- | [<- | [<- | []]]]]]]]]]; reflexivity.
Defined.

Lemma explicit_field_solid_result (v : value) (c : str) :
  explicit_field v = Some c -> c <> [].
Proof.
  destruct v; simpl; try discriminate.
  destruct (strip s) as [|a t]; [discriminate|].
  intros H. injection H as <-. discriminate.
Qed.

Lemma extract_sources (seller_obj : dict) (c : str) :
  extract_country_from_seller seller_obj = Some c ->
  (exists v, explicit_field v = Some c) \/ (exists v, address_field v = Some c).
Proof.
  unfold extract_country_from_seller, explicit_loop, address_loop.
  destruct (for_return direct_keys _) as [c1|] eqn:H1.
  - intros H. injection H as <-.
    apply for_return_some in H1. destruct H1 as [_ [k [_ [_ [H _]]]]]. left. eauto.
  - destruct (for_return candidate_keys _) as [c2|] eqn:H2.
    + intros H. injection H as <-.
      apply for_return_some in H2. destruct H2 as [_ [k [_ [_ [H _]]]]]. right. eauto.
    + destruct (dict_get seller_obj "extra"); try discriminate.
      intros H. apply for_return_some in H. destruct H as [_ [k [_ [_ [H _]]]]].
      left. eauto.
Qed.

Lemma dict_get_head (k : str) (v : value) (d : dict) : dict_get ((k, v) :: d) k = v.
Proof.
  unfold dict_get, lookup.
  assert (H : str_eqb k k = true) by (apply str_eqb_eq; reflexivity).
  rewrite H. reflexivity.
Qed.

(** X8: a determined country is never the empty string, and it is a fixed
    point of the inference: a record holding it under establishedCountry
    gives it back unchanged. *)
Theorem determined_country_round_trip (seller_obj : dict) (c : str) :
  extract_country_from_seller seller_obj = Some c ->
  c <> [] /\ extract_country_from_seller [("establishedCountry", VStr c)] = Some c.
Proof.
  intros H.
  assert (Hn : c <> [] /\ normalized c).
  { destruct (extract_sources seller_obj c H) as [[v Hv] | [v Hv]].
    - split; [exact (explicit_field_solid_result v c Hv)
             | exact (explicit_field_normalized v c Hv)].
    - split; [|exact (address_field_normalized v c Hv)].
      destruct (address_field_upper_code v c Hv) as [a [b [-> _]]]. discriminate. }
  destruct Hn as [Hne [Hs Hu]]. split; [exact Hne|].
  unfold extract_country_from_seller, explicit_loop, direct_keys.
  cbn [for_return]. rewrite dict_get_head.
  assert (He : explicit_field (VStr c) = Some c).
  { rewrite explicit_field_solid by (rewrite Hs; exact Hne). rewrite Hs, Hu. reflexivity. }
  rewrite He. reflexivity.
Qed.

Lemma determined_country_round_trip_witness :
  ("GB" : str) <> [] /\
  extract_country_from_seller [("establishedCountry", VStr "GB")] = Some "GB".
Proof.
  exact (determined_country_round_trip
           [("registrationAddress", VStr "Unit 4, Great  Britain")] "GB" eq_refl).
Defined.

(** * Further properties: one batch *)

Lemma effect_state {A : Type} (m : M A) (st : state) (o : outcome A)
    (R : list OutputRow) (L : list event) :
  effect m st o R L -> m st = (o, mkState (rows st ++ R) (log st ++ L)).
Proof.
  unfold effect. destruct (m st) as [o' [r l]]. simpl.
  intros [-> [-> ->]]. reflexivity.
Qed.

Lemma sid_body_answered (d : dict) (sid : str) (st : state) :
  effect (sid_body (VDict d) sid) st (Ok tt) (row_for d sid) [].
Proof.
  unfold sid_body, data_get, row_for. apply effect_bind_ret.
  destruct (dict_get d sid) as [| | | | | |sd]; try apply effect_ret.
  cbv zeta. destruct (extract_country_from_seller sd) as [c|]; [|apply effect_ret].
  destruct (in_target (Some c)); [apply effect_append_row | apply effect_ret].
Qed.

Lemma sids_answered (d : dict) (batch : list str) :
  forall st, effect (for_each batch (sid_body (VDict d))) st (Ok tt)
                    (flat_map (row_for d) batch) [].
Proof.
  induction batch as [|sid batch IH]; intros st; [apply effect_ret|].
  exact (effect_bind (sid_body (VDict d) sid) (fun _ => for_each batch (sid_body (VDict d)))
           st tt (Ok tt) (row_for d sid) (flat_map (row_for d) batch) [] []
           (sid_body_answered d sid st) (IH _)).
Qed.

(** A batch the provider answers with a dict: its query is logged, and the
    rows of its identifiers are appended in order. *)
Lemma batch_answered (seller_query : list event -> list str -> response)
    (seller_ids : list str) (i : nat) (st : state) (d : dict) :
  seller_query (log st) (chunk_of seller_ids i) = Returns (VDict d) ->
  effect (batch_body seller_query seller_ids i) st (Ok tt)
         (flat_map (row_for d) (chunk_of seller_ids i))
         [SellerQuery (chunk_of seller_ids i)].
Proof.
  intros Hq. unfold batch_body. fold (chunk_of seller_ids i).
  apply effect_try_ok.
  exact (effect_bind (call_seller_query seller_query (chunk_of seller_ids i))
           (fun data => for_each (chunk_of seller_ids i) (sid_body data))
           st (VDict d) (Ok tt) [] _ [SellerQuery (chunk_of seller_ids i)] []
           (effect_call_returns seller_query _ _ st Hq) (sids_answered d _ _)).
Qed.

Lemma row_for_absent (d : dict) (batch : list str) :
  (forall sid, In sid batch -> forall sd, dict_get d sid <> VDict sd) ->
  flat_map (row_for d) batch = [].
Proof.
  induction batch as [|sid batch IH]; intros H; simpl; [reflexivity|].
  rewrite IH by (intros s Hs; apply H; right; exact Hs).
  unfold row_for. pose proof (H sid (or_introl eq_refl)) as Hsid.
  destruct (dict_get d sid) as [| | | | | |sd]; try reflexivity.
  exfalso. exact (Hsid sd eq_refl).
Qed.

(** X9: in a batch the provider answers with a dict, identifiers for which the
    dict holds no record, or something that is no dict, are passed over in
    silence: no row, no warning, no pause; only the query is logged. *)
Theorem missing_records_skipped (seller_query : list event -> list str -> response)
    (seller_ids : list str) (i : nat) (st : state) (d : dict) :
  seller_query (log st) (slice seller_ids i (i + BATCH)) = Returns (VDict d) ->
  (forall sid, In sid (slice seller_ids i (i + BATCH)) ->
               forall sd, dict_get d sid <> VDict sd) ->
  batch_body seller_query seller_ids i st
  = (Ok tt, mkState (rows st) (log st ++ [SellerQuery (slice seller_ids i (i + BATCH))])).
Proof.
  intros Hq Hd.
  rewrite (effect_state _ _ _ _ _ (batch_answered seller_query seller_ids i st d Hq)).
  unfold chunk_of. rewrite (row_for_absent d _ Hd), app_nil_r. reflexivity.
Qed.

Lemma missing_records_skipped_witness :
  batch_body (fun _ _ => Returns (VDict [("A1", VStr "n/a"); ("A3", VNone)]))
             ["A1"; "A2"; "A3"] 0 initial
  = (Ok tt, mkState [] [SellerQuery ["A1"; "A2"; "A3"]]).
Proof.
  apply (missing_records_skipped
           (fun _ _ => Returns (VDict [("A1", VStr "n/a"); ("A3", VNone)]))
           ["A1"; "A2"; "A3"] 0 initial [("A1", VStr "n/a"); ("A3", VNone)]).
  - reflexivity.
  - intros sid [<- | [<- | [<- | []]]] sd H; discriminate H.
Defined.

(** X10: an answer of the provider that is no dict ends the batch like a failed
    query: the attempt to read the first identifier raises, no row is
    appended, and the warning carries the text of the attribute error for
    the type of the answer. *)
Theorem answer_not_a_dict (seller_query : list event -> list str -> response)
    (seller_ids : list str) (i : nat) (st : state) (data : value) :
  seller_query (log st) (slice seller_ids i (i + BATCH)) = Returns data ->
  (forall d, data <> VDict d) ->
  slice seller_ids i (i + BATCH) <> [] ->
  batch_body seller_query seller_ids i st
  = (Ok tt,
     mkState (rows st)
       (log st ++ [SellerQuery (slice seller_ids i (i + BATCH));
                   Print ("[warn] batch " ++ str_of_Z (Z.of_nat (i / BATCH + 1))
                          ++ " failed: '" ++ type_name data
                          ++ "' object has no attribute 'get'");
                   Sleep 2])).
Proof.
  intros Hq Hd Hne. unfold batch_body.
  destruct (slice seller_ids i (i + BATCH)) as [|sid batch] eqn:Hb; [congruence|].
  unfold try_except, bind at 1, call_seller_query. rewrite Hq.
  assert (Hraise : forall st0,
             for_each (sid :: batch) (sid_body data) st0
             = (Raised (Exception ("'" ++ type_name data ++ "' object has no attribute 'get'")),
                st0)).
  { intros st0. destruct data; try reflexivity. exfalso. exact (Hd d eq_refl). }
  rewrite Hraise. unfold bind, emit. simpl. unfold warn_msg.
  rewrite <- !app_assoc. reflexivity.
Qed.

Lemma answer_not_a_dict_witness :
  batch_body (fun _ _ => Returns (VList [])) ["A1"; "A2"] 0 initial
  = (Ok tt, mkState [] [SellerQuery ["A1"; "A2"];
                        Print "[warn] batch 1 failed: 'list' object has no attribute 'get'";
                        Sleep 2]).
Proof.
  apply (answer_not_a_dict (fun _ _ => Returns (VList [])) ["A1"; "A2"] 0 initial (VList [])).
  - reflexivity.
  - discriminate.
  - discriminate.
Defined.

(** * Further properties: the whole run *)

Lemma range_from_length (stop : nat) :
  forall fuel start, stop - start <= fuel ->
    length (range_from fuel start stop 100) = (stop - start + 99) / 100.
Proof.
  induction fuel as [|fuel IH]; intros start Hfuel; cbn [range_from].
  - replace (stop - start) with 0 by lia. reflexivity.
  - destruct (Nat.ltb_spec start stop) as [Hlt | Hge].
    + cbn [length]. rewrite IH by lia.
      destruct (Nat.le_gt_cases (start + 100) stop) as [Hfull | Hshort].
      * replace (stop - start + 99) with ((stop - (start + 100) + 99) + 1 * 100) by lia.
        rewrite Nat.div_add by lia. lia.
      * replace (stop - (start + 100)) with 0 by lia.
        rewrite (Nat.div_small (0 + 99) 100) by lia.
        assert (H : (stop - start + 99) / 100 = 1); [|lia].
        symmetry. apply (Nat.div_unique _ 100 1 (stop - start - 1)); lia.
    + replace (stop - start) with 0 by lia. reflexivity.
Qed.

Lemma range_from_head (fuel start stop step j : nat) (js : list nat) :
  range_from fuel start stop step = j :: js -> j = start /\ start < stop.
Proof.
  destruct fuel as [|fuel]; cbn [range_from]; [discriminate|].
  destruct (Nat.ltb_spec start stop) as [Hlt | Hge]; [|discriminate].
  intros H. injection H as <- _. auto.
Qed.

Lemma chunks_full_but_last (seller_ids : list str) :
  forall fuel start,
    Forall (fun b => length b = 100)
           (removelast (map (chunk_of seller_ids)
                            (range_from fuel start (length seller_ids) 100))).
Proof.
  induction fuel as [|fuel IH]; intros start; cbn [range_from]; [constructor|].
  destruct (Nat.ltb_spec start (length seller_ids)) as [Hlt | Hge]; [|constructor].
  cbn [map]. specialize (IH (start + 100)).
  destruct (range_from fuel (start + 100) (length seller_ids) 100) as [|j js] eqn:Hr;
    [constructor|].
  apply range_from_head in Hr. destruct Hr as [-> Hnext].
  change (removelast (chunk_of seller_ids start
                        :: map (chunk_of seller_ids) (start + 100 :: js)))
    with (chunk_of seller_ids start
            :: removelast (map (chunk_of seller_ids) (start + 100 :: js))).
  constructor; [|exact IH].
  unfold chunk_of. rewrite slice_step, length_firstn, length_skipn. unfold BATCH. lia.
Qed.

Lemma for_each_emit_rows (rs : list OutputRow) :
  forall st, for_each rs (fun r => emit (CsvRow r)) st
             = (Ok tt, mkState (rows st ++ []) (log st ++ map CsvRow rs)).
Proof.
  intros st. apply effect_state, effect_csv_rows.
Qed.

(** A run on identifiers that were read: the loop, then the closing
    events; the loop never raises. *)
Lemma after_read_split (seller_query : list event -> list str -> response)
    (seller_ids : list str) :
  after_read seller_query seller_ids initial
  = (Ok tt,
     mkState (rows (snd (query_all seller_query seller_ids initial)))
             (log (snd (query_all seller_query seller_ids initial))
              ++ closing (rows (snd (query_all seller_query seller_ids initial))))).
Proof.
  destruct (batches_effect seller_query seller_ids (range 0 (length seller_ids) BATCH) initial)
    as [R [L [E1 _]]].
  fold (query_all seller_query seller_ids) in E1.
  pose proof (effect_state _ _ _ _ _ E1) as Hq. simpl in Hq.
  unfold after_read, bind at 1. rewrite Hq. cbn [snd rows log].
  pose proof (effect_state _ _ _ _ _ (effect_write_csv (mkState R L))) as Hw.
  cbn [rows log] in Hw. rewrite app_nil_r in Hw.
  unfold bind at 1. rewrite Hw.
  unfold bind, get_rows, emit, closing. cbn [rows log].
  rewrite <- app_assoc. reflexivity.
Qed.

Lemma main_split (seller_query : list event -> list str -> response)
    (input_file : option str) :
  match input_ids input_file with
  | [] => exists msg, main seller_query input_file initial
                      = (Raised (SystemExit msg), initial)
  | id :: ids => main seller_query input_file initial
                 = after_read seller_query (id :: ids) initial
  end.
Proof.
  rewrite main_unfold, read_seller_ids_run. unfold input_ids.
  destruct input_file as [content|]; [|eauto].
  destruct (spec_trimmed_nonblank_lines content); [eauto | reflexivity].
Qed.

Lemma main_on_ids (seller_query : list event -> list str -> response)
    (input_file : option str) :
  input_ids input_file <> [] ->
  main seller_query input_file initial
  = after_read seller_query (input_ids input_file) initial.
Proof.
  intros Hne. pose proof (main_split seller_query input_file) as H.
  destruct (input_ids input_file); [congruence | exact H].
Qed.

(** X11: the provider is called once per batch, that is the number of
    identifiers divided by 100 and rounded up, whatever it answers; and
    every batch but the last holds exactly 100 identifiers. *)
Theorem number_of_queries (seller_query : list event -> list str -> response)
    (input_file : option str) :
  let st := snd (main seller_query input_file initial) in
  length (queried (log st)) = (length (input_ids input_file) + 99) / 100 /\
  Forall (fun batch => length batch = 100) (removelast (queried (log st))).
Proof.
  cbv zeta.
  destruct (main_run seller_query input_file)
    as [R [L [T [_ [Hl [_ [_ [HqL [_ [HqT _]]]]]]]]]].
  rewrite Hl, queried_app, HqT, app_nil_r, HqL. split.
  - rewrite length_map. unfold range, BATCH.
    rewrite range_from_length by lia. rewrite Nat.sub_0_r. reflexivity.
  - apply chunks_full_but_last.
Qed.

Lemma bind_ok {A B : Type} (m : M A) (f : A -> M B) (st : state) (a : A) :
  fst (m st) = Ok a -> bind m f st = f a (snd (m st)).
Proof. unfold bind. destruct (m st) as [o s]. simpl. intros ->. reflexivity. Qed.

Lemma loop_shape (seller_query : list event -> list str -> response)
    (seller_ids : list str) (idx : list nat) :
  forall st, exists segs,
    log (snd (for_each idx (batch_body seller_query seller_ids) st))
    = log st ++ concat segs /\
    Forall2 (batch_events seller_ids) idx segs.
Proof.
  induction idx as [|i idx IH]; intros st.
  - exists []. simpl. rewrite app_nil_r. split; [reflexivity | constructor].
  - destruct (batch_body_effect seller_query seller_ids i st)
      as [R [L [[Ho [_ Hl]] [_ [_ HL]]]]].
    destruct (IH (snd (batch_body seller_query seller_ids i st))) as [segs [Hs Hf]].
    exists ((SellerQuery (chunk_of seller_ids i) :: L) :: segs).
    cbn [for_each]. rewrite (bind_ok _ _ st tt Ho), Hs, Hl.
    split; [cbn [concat]; rewrite <- app_assoc; reflexivity|].
    constructor; [|exact Hf].
    destruct HL as [-> | [e ->]]; [left; reflexivity | right; exists e; reflexivity].
Qed.

(** X12: the log of a run on at least one identifier, from its first event to
    its last: batch by batch in the order of the input, the query of the
    batch, alone or followed by the warning with the number of that batch
    and a pause of 2; then the header, the rows in order, and the closing
    line with the number of rows. *)
Theorem run_log_shape (seller_query : list event -> list str -> response)
    (input_file : option str) :
  input_ids input_file <> [] ->
  let st := snd (main seller_query input_file initial) in
  let seller_ids := input_ids input_file in
  exists segs,
    Forall2 (fun i seg =>
               seg = [SellerQuery (slice seller_ids i (i + 100))] \/
               exists e,
                 seg = [SellerQuery (slice seller_ids i (i + 100));
                        Print ("[warn] batch " ++ str_of_Z (Z.of_nat (i / 100 + 1))
                               ++ " failed: " ++ e);
                        Sleep 2])
            (range 0 (length seller_ids) 100) segs /\
    log st = concat segs
             ++ CsvHeader ["sellerId"; "sellerName"; "establishedCountry";
                           "amazonUrl"; "keepaUrl"]
             :: map CsvRow (rows st)
             ++ [Print ("Done. Wrote " ++ str_of_Z (Z.of_nat (length (rows st)))
                        ++ " GB/UK sellers to gb_sellers_in_de.csv")].
Proof.
  intros Hne. cbv zeta.
  rewrite (main_on_ids seller_query input_file Hne), after_read_split. cbn [snd rows log].
  destruct (loop_shape seller_query (input_ids input_file)
              (range 0 (length (input_ids input_file)) BATCH) initial) as [segs [Hl Hf]].
  exists segs. split; [exact Hf|].
  fold (query_all seller_query (input_ids input_file)) in Hl. rewrite Hl. reflexivity.
Qed.

Lemma run_log_shape_witness :
  exists segs,
    Forall2 (fun i seg =>
               seg = [SellerQuery (slice ["S1"] i (i + 100))] \/
               exists e,
                 seg = [SellerQuery (slice ["S1"] i (i + 100));
                        Print ("[warn] batch " ++ str_of_Z (Z.of_nat (i / 100 + 1))
                               ++ " failed: " ++ e);
                        Sleep 2])
            [0] segs /\
    log (snd (main flaky_provider (Some "S1") initial))
    = concat segs
      ++ CsvHeader ["sellerId"; "sellerName"; "establishedCountry"; "amazonUrl"; "keepaUrl"]
      :: map CsvRow (rows (snd (main flaky_provider (Some "S1") initial)))
      ++ [Print ("Done. Wrote "
                 ++ str_of_Z (Z.of_nat (length (rows (snd (main flaky_provider (Some "S1")
                                                                 initial)))))
                 ++ " GB/UK sellers to gb_sellers_in_de.csv")].
Proof.
  apply (run_log_shape flaky_provider (Some "S1")). discriminate.
Defined.

Lemma total_sleep_app (a b : list event) :
  total_sleep (a ++ b) = (total_sleep a + total_sleep b)%Z.
Proof.
  induction a as [|ev a IH]; simpl; [reflexivity|].
  fold (total_sleep (a ++ b)). fold (total_sleep a). rewrite IH.
  destruct ev; lia.
Qed.

Lemma total_sleep_rows (R : list OutputRow) : total_sleep (map CsvRow R) = 0%Z.
Proof. induction R as [|r R IH]; simpl; [reflexivity | exact IH]. Qed.

Lemma total_sleep_closing (R : list OutputRow) : total_sleep (closing R) = 0%Z.
Proof.
  unfold closing. change (CsvHeader fieldnames :: map CsvRow R ++ [Print (done_msg R)])
    with ([CsvHeader fieldnames] ++ map CsvRow R ++ [Print (done_msg R)]).
  rewrite !total_sleep_app, total_sleep_rows. reflexivity.
Qed.

Lemma total_sleep_batches (seller_ids : list str) (idx : list nat) (segs : list (list event)) :
  Forall2 (batch_events seller_ids) idx segs ->
  (0 <= total_sleep (concat segs) <= 2 * Z.of_nat (length idx))%Z.
Proof.
  intros H. induction H as [|i seg idx segs Hseg _ IH]; [simpl; lia|].
  cbn [concat length]. rewrite total_sleep_app.
  assert (Hs : (0 <= total_sleep seg <= 2)%Z).
  { destruct Hseg as [-> | [e ->]]; simpl; lia. }
  lia.
Qed.

(** X13: the pauses of a run add up to at most 2 per batch: at most twice the
    number of identifiers divided by 100 and rounded up, whatever the
    provider does. *)
Theorem total_sleep_bounded (seller_query : list event -> list str -> response)
    (input_file : option str) :
  (0 <= total_sleep (log (snd (main seller_query input_file initial)))
     <= 2 * Z.of_nat ((length (input_ids input_file) + 99) / 100))%Z.
Proof.
  pose proof (main_split seller_query input_file) as Hm.
  destruct (input_ids input_file) as [|id ids] eqn:Hids.
  - destruct Hm as [msg ->]. simpl. lia.
  - rewrite Hm, after_read_split. cbn [snd rows log].
    destruct (loop_shape seller_query (id :: ids) (range 0 (length (id :: ids)) BATCH) initial)
      as [segs [Hl Hf]].
    fold (query_all seller_query (id :: ids)) in Hl.
    rewrite Hl, !total_sleep_app, total_sleep_closing.
    pose proof (total_sleep_batches _ _ _ Hf) as Hb.
    unfold range, BATCH in Hb. rewrite range_from_length in Hb by lia.
    rewrite Nat.sub_0_r in Hb. change (total_sleep (log initial)) with 0%Z. lia.
Qed.

Lemma loop_all_answered (seller_query : list event -> list str -> response)
    (seller_ids : list str) (idx : list nat) :
  (forall l batch, exists d, seller_query l batch = Returns (VDict d)) ->
  forall st,
    log (snd (for_each idx (batch_body seller_query seller_ids) st))
    = log st ++ map SellerQuery (map (chunk_of seller_ids) idx).
Proof.
  intros Hall. induction idx as [|i idx IH]; intros st.
  - simpl. rewrite app_nil_r. reflexivity.
  - destruct (Hall (log st) (chunk_of seller_ids i)) as [d Hq].
    pose proof (effect_state _ _ _ _ _ (batch_answered seller_query seller_ids i st d Hq))
      as Hb.
    cbn [for_each]. unfold bind at 1. rewrite Hb, IH. cbn [log map].
    rewrite <- app_assoc. reflexivity.
Qed.

(** X14: when the provider answers every query with a dict, the run prints no
    warning and never pauses: its log is the queries of the batches, one
    after the other, then the header, the rows and the closing line. *)
Theorem answered_run_is_quiet (seller_query : list event -> list str -> response)
    (input_file : option str) :
  (forall l batch, exists d, seller_query l batch = Returns (VDict d)) ->
  input_ids input_file <> [] ->
  let st := snd (main seller_query input_file initial) in
  let seller_ids := input_ids input_file in
  log st = map SellerQuery
             (map (fun i => slice seller_ids i (i + 100)) (range 0 (length seller_ids) 100))
           ++ CsvHeader ["sellerId"; "sellerName"; "establishedCountry";
                         "amazonUrl"; "keepaUrl"]
           :: map CsvRow (rows st)
           ++ [Print ("Done. Wrote " ++ str_of_Z (Z.of_nat (length (rows st)))
                      ++ " GB/UK sellers to gb_sellers_in_de.csv")].
Proof.
  intros Hall Hne. cbv zeta.
  rewrite (main_on_ids seller_query input_file Hne), after_read_split. cbn [snd rows log].
  unfold query_all. rewrite (loop_all_answered seller_query _ _ Hall). reflexivity.
Qed.

Lemma answered_run_is_quiet_witness :
  log (snd (main (fun _ _ => Returns (VDict [("A1", VDict [("country", VStr "uk")])]))
                 (Some "A1") initial))
  = [SellerQuery ["A1"];
     CsvHeader ["sellerId"; "sellerName"; "establishedCountry"; "amazonUrl"; "keepaUrl"];
     CsvRow (mkRow "A1" "" "UK" "https://www.amazon.de/sp?seller=A1"
               "https://keepa.com/#!seller/DE/A1");
     Print "Done. Wrote 1 GB/UK sellers to gb_sellers_in_de.csv"].
Proof.
  apply (answered_run_is_quiet
           (fun _ _ => Returns (VDict [("A1", VDict [("country", VStr "uk")])]))
           (Some "A1")).
  - intros l batch. eexists. reflexivity.
  - discriminate.
Defined.

Lemma loop_fixed_table (d : dict) (seller_ids : list str) (idx : list nat) :
  forall st,
    rows (snd (for_each idx (batch_body (fun _ _ => Returns (VDict d)) seller_ids) st))
    = rows st ++ flat_map (row_for d) (concat (map (chunk_of seller_ids) idx)).
Proof.
  induction idx as [|i idx IH]; intros st.
  - simpl. rewrite app_nil_r. reflexivity.
  - pose proof (effect_state _ _ _ _ _
                  (batch_answered (fun _ _ => Returns (VDict d)) seller_ids i st d eq_refl))
      as Hb.
    cbn [for_each]. unfold bind at 1. rewrite Hb, IH. cbn [rows map concat].
    rewrite flat_map_app, <- app_assoc. reflexivity.
Qed.

(** X15: batching does not show in the result: when the provider answers every
    query from one and the same table, the rows of the run are those of the
    identifiers taken one by one in the order of the input, an identifier
    giving a row exactly when the table holds a dict for it whose inferred
    country is GB or UK. *)
Theorem batching_is_invisible (d : dict) (input_file : option str) :
  rows (snd (main (fun _ _ => Returns (VDict d)) input_file initial))
  = flat_map
      (fun sid =>
         match dict_get d sid with
         | VDict sd =>
             match extract_country_from_seller sd with
             | Some c =>
                 if str_eqb c "GB" || str_eqb c "UK" then
                   [mkRow sid (seller_name sd) c (amazon_seller_url sid "DE")
                      (keepa_seller_url sid "DE")]
                 else []
             | None => []
             end
         | _ => []
         end)
      (input_ids input_file).
Proof.
  pose proof (main_split (fun _ _ => Returns (VDict d)) input_file) as Hm.
  destruct (input_ids input_file) as [|id ids] eqn:Hids.
  - destruct Hm as [msg ->]. reflexivity.
  - rewrite Hm, after_read_split. cbn [snd rows]. unfold query_all.
    rewrite loop_fixed_table, chunks_cover. reflexivity.
Qed.

(** X16: when there is no input file, or no identifier in it, the run stops
    before it does anything: the provider is not called and nothing is
    written or printed beside the exit message. *)
Theorem fatal_input_does_nothing (seller_query : list event -> list str -> response)
    (input_file : option str) :
  input_ids input_file = [] ->
  exists msg, main seller_query input_file initial = (Raised (SystemExit msg), initial).
Proof.
  intros H. pose proof (main_split seller_query input_file) as Hm.
  rewrite H in Hm. exact Hm.
Qed.

Lemma fatal_input_does_nothing_witness :
  exists msg, main (fun _ _ => Fails "down") (Some (" " ++ [LF; TAB; LF])) initial
              = (Raised (SystemExit msg), initial).
Proof.
  apply (fatal_input_does_nothing (fun _ _ => Fails "down") (Some (" " ++ [LF; TAB; LF]))).
  reflexivity.
Defined.

